(** * RwMem-Migen: the [Mem] responder and the [Master] initiator

    A shallow embedding of [rwmem.py].  The design is written in Migen, so
    the embedding follows the Migen simulator ([run_simulation]) that the
    regression of the repository runs it with:

    - every signal holds an integer; an assignment to an unsigned signal of
      [n] bits keeps [value & (2**n - 1)];
    - the statements of [self.sync] are evaluated at each rising clock edge
      on the values the signals had before the edge, and their targets change
      together when the edge is committed;
    - the statements of [self.comb] are re-evaluated after every commit until
      nothing changes, so a combinatorial signal is a function of the
      registers and of the driven inputs;
    - a generator (the routines [write] and [read] of [Master]) runs at each
      rising edge until its next bare [yield]; [yield sig] reads the value the
      signal had before the edge, [yield sig.eq(v)] schedules a change that is
      committed with the edge;
    - a [Memory] is simulated as an array of signals, one per word, read and
      written through a clamped index. *)

From Stdlib Require Import ZArith Bool Lia.
From stdpp Require Import base list.

Local Open Scope Z_scope.

(** ** The part of Migen the design relies on *)

Module Migen.

(** [migen.sim.core._truncate], for an unsigned signal. *)
Definition truncate (value nbits : Z) : Z := Z.land value (2 ^ nbits - 1).

(** Python's [int.bit_length]. *)
Definition bit_length (n : Z) : Z :=
  if n =? 0 then 0 else Z.log2 (Z.abs n) + 1.

(** [migen.fhdl.bitcontainer.log2_int(n, need_pow2=False)]. *)
Definition log2_int (n : Z) : Z :=
  if n =? 0 then 0 else bit_length (n - 1).

(** [migen.fhdl.bitcontainer.bits_for(n)]. *)
Definition bits_for (n : Z) : Z :=
  if 0 <? n then log2_int (n + 1) else log2_int (- n) + 1.

(** The width that [Signal(max=m)] computes,
    [max(bits_for(min), bits_for(max))] on the inclusive bounds [0] and
    [m - 1], once the declaration has passed its assertion: see
    [Signal_max]. *)
Definition nbits_max (m : Z) : Z := Z.max (bits_for 0) (bits_for (m - 1)).

(** [Signal(max=m)]: the bounds are made inclusive, [min = 0] and
    [max = m - 1], and [assert(min < max)] comes before the width is
    computed.  [None] is the [AssertionError]; [Signal(max=1)] raises it. *)
Definition Signal_max (m : Z) : option Z :=
  if 0 <? m - 1 then Some (nbits_max m) else None.

(** [Signal(nbits)]: the width has to be a strictly positive integer.
    [None] is the [ValueError]; [Signal(0)] raises it. *)
Definition Signal_nbits (nbits : Z) : option Z :=
  if 0 <? nbits then Some nbits else None.

(** Width of [Signal()]. *)
Definition nbits_default : Z := nbits_max 2.

(** Truth value of an integer, as [If] and Python's [not]/[or] take it. *)
Definition truthy (v : Z) : bool := negb (v =? 0).

(** The operators of the design: [==], [>=], [&], [|], [~]. *)
Definition op_eq (a b : Z) : Z := Z.b2z (a =? b).
Definition op_ge (a b : Z) : Z := Z.b2z (b <=? a).
Definition op_and (a b : Z) : Z := Z.land a b.
Definition op_or (a b : Z) : Z := Z.lor a b.
Definition op_invert (a : Z) : Z := Z.lnot a.

(** An [Array] indexed by a signal: the simulator clamps the key to the
    last element, [min(key, len(choices) - 1)].  The keys of the design are
    unsigned; on an empty array Python raises, here the read gives [0] and
    the write changes nothing. *)
Definition array_idx (choices : list Z) (key : Z) : nat :=
  Z.to_nat (Z.min key (Z.of_nat (length choices) - 1)).

Definition array_eval (choices : list Z) (key : Z) : Z :=
  default 0 (choices !! array_idx choices key).

Definition array_assign (choices : list Z) (key value : Z) : list Z :=
  <[array_idx choices key := value]> choices.

End Migen.

Import Migen.

(** ** The request signals [m2s_we], [m2s_data], [m2s_addr] *)

Record M2S := mkM2S { m2s_we : Z; m2s_data : Z; m2s_addr : Z }.

(** ** class Mem *)

Module Mem.

(** The registers of [Mem]: the targets of its [self.sync] statements,
    and those of its memory port ([adr_reg] and the words of the memory,
    see [MemoryToArray] for a port in the default [WRITE_FIRST] mode with a
    synchronous read). *)
Record Regs := mkRegs {
  ack_we : Z;
  addr_new : Z;
  ack_re_reg : Z;
  adr_reg : Z;
  storage : list Z
}.

(** The six signals of [self.ios]. *)
Inductive io := io_m2s_addr | io_m2s_data | io_m2s_we
              | io_s2m_data | io_s2m_ack | io_s2m_error.

Section Mem.

Variables (data_width mem_size : Z) (init : list Z).

(** Signal declarations of [Mem.__init__]. *)
Definition nbits (sig : io) : Z :=
  match sig with
  | io_m2s_addr => data_width
  | io_m2s_data => data_width
  | io_m2s_we => nbits_default
  | io_s2m_data => data_width
  | io_s2m_ack => nbits_default
  | io_s2m_error => nbits_default
  end.

(** [mem_inst.get_port(write_capable=True)]: [adr = Signal(max=depth)],
    [dat_r], [dat_w] of the width of a word, [we = Signal()]. *)
Definition adr_nbits : Z := nbits_max mem_size.

(** [Memory(data_width, mem_size, init=init)]: the words of [init], then
    zeros up to [mem_size] words. *)
Definition storage_reset : list Z :=
  init ++ replicate (Z.to_nat (mem_size - Z.of_nat (length init))) 0.

Definition reset : Regs :=
  {| ack_we := 0; addr_new := 0; ack_re_reg := 0; adr_reg := 0;
     storage := storage_reset |}.

(** [Mem(data_width=data_width, mem_size=mem_size, init=init)]: the
    constructor declares [Signal(data_width)] and, in [get_port],
    [Signal(max=mem_size)]; it raises when one of them does, and otherwise
    gives the responder in its reset state.  The other signals are
    [Signal()], or copies of these. *)
Definition build : option Regs :=
  match Signal_nbits data_width, Signal_max mem_size with
  | Some _, Some _ => Some reset
  | _, _ => None
  end.

(** The first block of [self.comb]: the port is driven by the inputs. *)
Definition mem_ports_we (i : M2S) : Z := truncate (m2s_we i) nbits_default.
Definition mem_ports_dat_w (i : M2S) : Z := truncate (m2s_data i) data_width.
Definition mem_ports_adr (i : M2S) : Z := truncate (m2s_addr i) adr_nbits.

(** [port.dat_r.eq(storage[adr_reg])], the read path of the port. *)
Definition mem_ports_dat_r (r : Regs) : Z :=
  truncate (array_eval (storage r) (adr_reg r)) data_width.

(** [self.s2m_data.eq(mem_ports.dat_r)]. *)
Definition s2m_data (r : Regs) : Z :=
  truncate (mem_ports_dat_r r) (nbits io_s2m_data).

(** [If((addr_new == self.m2s_addr) & (mem_ports.we == 0), ack_re.eq(1))
    .Else(ack_re.eq(0))]. *)
Definition ack_re (r : Regs) (i : M2S) : Z :=
  if truthy (op_and (op_eq (addr_new r) (m2s_addr i))
                    (op_eq (mem_ports_we i) 0))
  then truncate 1 nbits_default
  else truncate 0 nbits_default.

(** [If(self.m2s_addr >= mem_size, self.s2m_error.eq(1))
    .Else(self.s2m_error.eq(0))]. *)
Definition s2m_error (i : M2S) : Z :=
  if truthy (op_ge (m2s_addr i) mem_size)
  then truncate 1 (nbits io_s2m_error)
  else truncate 0 (nbits io_s2m_error).

(** [self.s2m_ack.eq((ack_re | ack_we) & ~self.s2m_error)]. *)
Definition s2m_ack (r : Regs) (i : M2S) : Z :=
  truncate (op_and (op_or (ack_re r i) (ack_we r)) (op_invert (s2m_error i)))
           (nbits io_s2m_ack).

(** One rising edge: the [self.sync] statements of [Mem] and of its
    memory port, all evaluated on the values before the edge. *)
Definition sync (r : Regs) (i : M2S) : Regs :=
  {| ack_we := truncate (mem_ports_we i) nbits_default;
     addr_new := truncate (m2s_addr i) data_width;
     ack_re_reg := truncate (ack_re r i) nbits_default;
     adr_reg := truncate (mem_ports_adr i) adr_nbits;
     storage :=
       if truthy (mem_ports_we i)
       then array_assign (storage r) (mem_ports_adr i)
                         (truncate (mem_ports_dat_w i) data_width)
       else storage r |}.

(** The responder over time: [ins t] are the values of its three input
    signals during tick [t]; [run ins t] are its registers during
    tick [t], that is after [t] edges. *)
Fixpoint run (ins : nat -> M2S) (t : nat) : Regs :=
  match t with
  | O => reset
  | S t' => sync (run ins t') (ins t')
  end.

End Mem.

End Mem.

(** ** What [Master] needs of its [slave]

    [Master.__init__] takes any module that has the six signals; it drives
    the three request signals combinatorially from its own and copies the
    three response signals into its own.  A responder is therefore given by
    its registers, their update at a rising edge, and the values of its
    response signals, all as functions of the request signals of the
    [Master] (the responder truncates them to the widths of its own). *)

Class Responder (St : Type) := {
  resp_reset : St;
  resp_sync : St -> M2S -> St;
  resp_s2m_ack : St -> M2S -> Z;
  resp_s2m_data : St -> M2S -> Z;
  resp_s2m_error : St -> M2S -> Z
}.

(** [slave.m2s_we.eq(self.m2s_we)], [slave.m2s_data.eq(self.m2s_data)],
    [slave.m2s_addr.eq(self.m2s_addr)] for a [Mem]. *)
Definition Mem_connect (data_width : Z) (m : M2S) : M2S :=
  {| m2s_we := truncate (m2s_we m) (Mem.nbits data_width Mem.io_m2s_we);
     m2s_data := truncate (m2s_data m) (Mem.nbits data_width Mem.io_m2s_data);
     m2s_addr := truncate (m2s_addr m) (Mem.nbits data_width Mem.io_m2s_addr) |}.

#[export] Instance Mem_responder (data_width mem_size : Z) (init : list Z)
  : Responder Mem.Regs := {
  resp_reset := Mem.reset mem_size init;
  resp_sync r m := Mem.sync data_width mem_size r (Mem_connect data_width m);
  resp_s2m_ack r m := Mem.s2m_ack data_width mem_size r (Mem_connect data_width m);
  resp_s2m_data r m := Mem.s2m_data data_width r;
  resp_s2m_error r m := Mem.s2m_error data_width mem_size (Mem_connect data_width m)
}.

(** ** class Master *)

Module Master.

Inductive io := io_m2s_we | io_m2s_data | io_m2s_addr
              | io_s2m_ack | io_s2m_data | io_s2m_error.

(** What a run of a generator routine ends with: a returned value, or the
    [AssertionError] of [assert timeout < 20] (with the value [timeout]
    had); [OutOfFuel] is the bound of the model's recursion, which
    [while_poll_fuel] shows is never met. *)
Inductive outcome (S A : Type) :=
| Return (a : A) (s : S)
| AssertionError (timeout : Z) (s : S)
| OutOfFuel.
Arguments Return {S A} a s.
Arguments AssertionError {S A} timeout s.
Arguments OutOfFuel {S A}.

Section Master.

Variable mem_size : Z.
Context {St : Type} {slave : Responder St}.

(** Signal declarations of [Master.__init__]. *)
Definition nbits (sig : io) : Z :=
  match sig with
  | io_m2s_we => nbits_default
  | io_m2s_data => mem_size
  | io_m2s_addr => mem_size
  | io_s2m_ack => nbits_default
  | io_s2m_data => mem_size
  | io_s2m_error => nbits_default
  end.

(** The simulation as the generator sees it: the registers of the slave,
    the committed values [cur] of the three request signals of the
    [Master], the values [pend] they take at the commit of the current
    edge, and the number [now] of edges committed so far. *)
Record Sim := mkSim {
  slave_regs : St;
  cur : M2S;
  pend : M2S;
  now : nat
}.

Definition sim_reset : Sim :=
  {| slave_regs := resp_reset;
     cur := mkM2S 0 0 0;
     pend := mkM2S 0 0 0;
     now := O |}.

(** The response signals of the [Master]: [self.s2m_ack.eq(slave.s2m_ack)],
    [self.s2m_data.eq(slave.s2m_data)], [self.s2m_error.eq(slave.s2m_error)]. *)
Definition s2m_ack (s : Sim) : Z :=
  truncate (resp_s2m_ack (slave_regs s) (cur s)) (nbits io_s2m_ack).
Definition s2m_data (s : Sim) : Z :=
  truncate (resp_s2m_data (slave_regs s) (cur s)) (nbits io_s2m_data).
Definition s2m_error (s : Sim) : Z :=
  truncate (resp_s2m_error (slave_regs s) (cur s)) (nbits io_s2m_error).

(** A bare [yield]: the edge is committed. *)
Definition tick (s : Sim) : Sim :=
  {| slave_regs := resp_sync (slave_regs s) (cur s);
     cur := pend s;
     pend := pend s;
     now := S (now s) |}.

(** Generator routines: state passing with the [AssertionError] exit. *)
Definition Gen (A : Type) : Type := Sim -> outcome Sim A.

Definition ret {A} (a : A) : Gen A := fun s => Return a s.

Definition bind {A B} (m : Gen A) (k : A -> Gen B) : Gen B :=
  fun s =>
    match m s with
    | Return a s' => k a s'
    | AssertionError t s' => AssertionError t s'
    | OutOfFuel => OutOfFuel
    end.

(** [yield self.m2s_addr.eq(v)] and the like. *)
Definition yield_m2s_addr_eq (v : Z) : Gen unit :=
  fun s =>
    Return tt {| slave_regs := slave_regs s; cur := cur s;
                 pend := {| m2s_we := m2s_we (pend s);
                            m2s_data := m2s_data (pend s);
                            m2s_addr := truncate v (nbits io_m2s_addr) |};
                 now := now s |}.

Definition yield_m2s_data_eq (v : Z) : Gen unit :=
  fun s =>
    Return tt {| slave_regs := slave_regs s; cur := cur s;
                 pend := {| m2s_we := m2s_we (pend s);
                            m2s_data := truncate v (nbits io_m2s_data);
                            m2s_addr := m2s_addr (pend s) |};
                 now := now s |}.

Definition yield_m2s_we_eq (v : Z) : Gen unit :=
  fun s =>
    Return tt {| slave_regs := slave_regs s; cur := cur s;
                 pend := {| m2s_we := truncate v (nbits io_m2s_we);
                            m2s_data := m2s_data (pend s);
                            m2s_addr := m2s_addr (pend s) |};
                 now := now s |}.

(** [yield]. *)
Definition yield_ : Gen unit := fun s => Return tt (tick s).

(** [yield self.s2m_ack] and the like. *)
Definition yield_s2m_ack : Gen Z := fun s => Return (s2m_ack s) s.
Definition yield_s2m_data : Gen Z := fun s => Return (s2m_data s) s.
Definition yield_s2m_error : Gen Z := fun s => Return (s2m_error s) s.

(** [assert timeout < 20]. *)
Definition assert_timeout (timeout : Z) : Gen unit :=
  fun s => if timeout <? 20 then Return tt s else AssertionError timeout s.

(** The poll loop of [write] and [read]:
    [while not ((yield self.s2m_ack) or (yield self.s2m_error)):
         timeout += 1; assert timeout < 20; yield].
    Python's [or] reads [s2m_error] only when [s2m_ack] is [0].  The loop
    gives back the value [timeout] has when it is left. *)
Fixpoint while_poll (fuel : nat) (timeout : Z) : Gen Z :=
  match fuel with
  | O => fun _ => OutOfFuel
  | S fuel' =>
      bind yield_s2m_ack (fun ack =>
      bind (if truthy ack then ret ack else yield_s2m_error) (fun ack_or_error =>
      if negb (truthy ack_or_error) then
        let timeout := timeout + 1 in
        bind (assert_timeout timeout) (fun _ =>
        bind yield_ (fun _ =>
        while_poll fuel' timeout))
      else ret timeout))
  end.

(** [Master.write]. *)
Definition write (adr dat : Z) : Gen (Z * Z) :=
  let timeout := 0 in
  bind (yield_m2s_addr_eq adr) (fun _ =>
  bind (yield_m2s_data_eq dat) (fun _ =>
  bind (yield_m2s_we_eq 1) (fun _ =>
  bind yield_ (fun _ =>
  bind (yield_m2s_we_eq 0) (fun _ =>
  bind (while_poll 20 timeout) (fun _ =>
  bind yield_s2m_data (fun value =>
  bind yield_s2m_error (fun error =>
  ret (value, error))))))))).

(** [Master.read]. *)
Definition read (adr : Z) : Gen (Z * Z) :=
  let timeout := 0 in
  bind (yield_m2s_addr_eq adr) (fun _ =>
  bind yield_ (fun _ =>
  bind (while_poll 20 timeout) (fun _ =>
  bind yield_s2m_data (fun value =>
  bind yield_s2m_error (fun error =>
  ret (value, error)))))).

(** The condition that ends the loop: [(yield self.s2m_ack) or
    (yield self.s2m_error)] is true. *)
Definition poll_done (s : Sim) : bool :=
  truthy (s2m_ack s) || truthy (s2m_error s).

(** The simulation at the first poll of [write adr dat] called in [s]: the
    request has been committed by the [yield], and [m2s_we.eq(0)] is
    scheduled for the next commit. *)
Definition write_first_poll (adr dat : Z) (s : Sim) : Sim :=
  {| slave_regs := resp_sync (slave_regs s) (cur s);
     cur := {| m2s_we := truncate 1 (nbits io_m2s_we);
               m2s_data := truncate dat (nbits io_m2s_data);
               m2s_addr := truncate adr (nbits io_m2s_addr) |};
     pend := {| m2s_we := truncate 0 (nbits io_m2s_we);
                m2s_data := truncate dat (nbits io_m2s_data);
                m2s_addr := truncate adr (nbits io_m2s_addr) |};
     now := S (now s) |}.

(** The simulation at the first poll of [read adr] called in [s]. *)
Definition read_first_poll (adr : Z) (s : Sim) : Sim :=
  {| slave_regs := resp_sync (slave_regs s) (cur s);
     cur := {| m2s_we := m2s_we (pend s);
               m2s_data := m2s_data (pend s);
               m2s_addr := truncate adr (nbits io_m2s_addr) |};
     pend := {| m2s_we := m2s_we (pend s);
                m2s_data := m2s_data (pend s);
                m2s_addr := truncate adr (nbits io_m2s_addr) |};
     now := S (now s) |}.

(** The value a routine returns, if it returns. *)
Definition returned {A} (o : outcome Sim A) : option A :=
  match o with Return a _ => Some a | _ => None end.

End Master.

End Master.

(** [Master(None, mem_size, data_width, init)]: the [Master] on top of the
    [Mem] it builds, [Mem(mem_size=mem_size, data_width=data_width, init=init)]. *)
Definition dut_write (mem_size data_width : Z) (init : list Z) (adr dat : Z) :=
  Master.write mem_size (slave := Mem_responder data_width mem_size init) adr dat.

Definition dut_read (mem_size data_width : Z) (init : list Z) (adr : Z) :=
  Master.read mem_size (slave := Mem_responder data_width mem_size init) adr.

Definition dut_reset (mem_size data_width : Z) (init : list Z) :=
  Master.sim_reset (slave := Mem_responder data_width mem_size init).

(** The construction itself: [Master.__init__] builds the [Mem], then
    declares its own [Signal(mem_size)].  [None] when a declaration raises;
    otherwise the simulation starts in [dut_reset]. *)
Definition dut_build (mem_size data_width : Z) (init : list Z)
  : option (@Master.Sim Mem.Regs) :=
  match Mem.build data_width mem_size init, Signal_nbits mem_size with
  | Some _, Some _ => Some (dut_reset mem_size data_width init)
  | _, _ => None
  end.

(** A responder that never answers, for fault injection. *)
#[export] Instance silent_responder : Responder unit := {
  resp_reset := tt;
  resp_sync _ _ := tt;
  resp_s2m_ack _ _ := 0;
  resp_s2m_data _ _ := 0;
  resp_s2m_error _ _ := 0
}.

(** ** How the simulator settles the combinatorial signals

    After each commit the simulator executes all the statements of
    [self.comb] (those of [Master], of [Mem] and of the memory port) on the
    current values of the signals, commits, and starts again until a pass
    changes nothing.  [Comb] holds the fourteen signals these statements
    drive; [comb_pass] is one pass, statement by statement. *)

Module Settle.

Record Comb := mkComb {
  slave_m2s_we : Z;
  slave_m2s_data : Z;
  slave_m2s_addr : Z;
  mem_ports_we : Z;
  mem_ports_dat_w : Z;
  mem_ports_adr : Z;
  mem_ports_dat_r : Z;
  slave_s2m_data : Z;
  ack_re : Z;
  slave_s2m_error : Z;
  slave_s2m_ack : Z;
  s2m_ack : Z;
  s2m_data : Z;
  s2m_error : Z
}.

#[export] Instance Comb_eq_dec : EqDecision Comb.
Proof. solve_decision. Defined.

Section Settle.

Variables (mem_size data_width : Z).
Variables (regs : Mem.Regs) (m2s : M2S).

Definition comb_pass (c : Comb) : Comb :=
  {| (* Master: slave.m2s_we.eq(self.m2s_we), ... *)
     slave_m2s_we := truncate (m2s_we m2s) (Mem.nbits data_width Mem.io_m2s_we);
     slave_m2s_data := truncate (m2s_data m2s) (Mem.nbits data_width Mem.io_m2s_data);
     slave_m2s_addr := truncate (m2s_addr m2s) (Mem.nbits data_width Mem.io_m2s_addr);
     (* Mem: mem_ports.we.eq(self.m2s_we), ... *)
     mem_ports_we := truncate (slave_m2s_we c) nbits_default;
     mem_ports_dat_w := truncate (slave_m2s_data c) data_width;
     mem_ports_adr := truncate (slave_m2s_addr c) (Mem.adr_nbits mem_size);
     (* the port: dat_r.eq(storage[adr_reg]) *)
     mem_ports_dat_r :=
       truncate (array_eval (Mem.storage regs) (Mem.adr_reg regs)) data_width;
     (* Mem: self.s2m_data.eq(mem_ports.dat_r) *)
     slave_s2m_data := truncate (mem_ports_dat_r c) (Mem.nbits data_width Mem.io_s2m_data);
     (* Mem: If((addr_new == self.m2s_addr) & (mem_ports.we == 0), ...) *)
     ack_re :=
       if truthy (op_and (op_eq (Mem.addr_new regs) (slave_m2s_addr c))
                         (op_eq (mem_ports_we c) 0))
       then truncate 1 nbits_default
       else truncate 0 nbits_default;
     (* Mem: If(self.m2s_addr >= mem_size, ...) *)
     slave_s2m_error :=
       if truthy (op_ge (slave_m2s_addr c) mem_size)
       then truncate 1 (Mem.nbits data_width Mem.io_s2m_error)
       else truncate 0 (Mem.nbits data_width Mem.io_s2m_error);
     (* Mem: self.s2m_ack.eq((ack_re | ack_we) & ~self.s2m_error) *)
     slave_s2m_ack :=
       truncate (op_and (op_or (ack_re c) (Mem.ack_we regs))
                        (op_invert (slave_s2m_error c)))
                (Mem.nbits data_width Mem.io_s2m_ack);
     (* Master: self.s2m_ack.eq(slave.s2m_ack), ... *)
     s2m_ack := truncate (slave_s2m_ack c) (Master.nbits mem_size Master.io_s2m_ack);
     s2m_data := truncate (slave_s2m_data c) (Master.nbits mem_size Master.io_s2m_data);
     s2m_error := truncate (slave_s2m_error c) (Master.nbits mem_size Master.io_s2m_error)
  |}.

(** [while modified: execute(comb); modified = commit()]. *)
Fixpoint propagate (fuel : nat) (c : Comb) : option Comb :=
  match fuel with
  | O => None
  | S fuel' =>
      let c' := comb_pass c in
      if decide (c' = c) then Some c else propagate fuel' c'
  end.

(** The values the embedding gives to the fourteen signals. *)
Definition settled : Comb :=
  let i := Mem_connect data_width m2s in
  {| slave_m2s_we := m2s_we i;
     slave_m2s_data := m2s_data i;
     slave_m2s_addr := m2s_addr i;
     mem_ports_we := Mem.mem_ports_we i;
     mem_ports_dat_w := Mem.mem_ports_dat_w data_width i;
     mem_ports_adr := Mem.mem_ports_adr mem_size i;
     mem_ports_dat_r := Mem.mem_ports_dat_r data_width regs;
     slave_s2m_data := Mem.s2m_data data_width regs;
     ack_re := Mem.ack_re regs i;
     slave_s2m_error := Mem.s2m_error data_width mem_size i;
     slave_s2m_ack := Mem.s2m_ack data_width mem_size regs i;
     s2m_ack := truncate (Mem.s2m_ack data_width mem_size regs i)
                         (Master.nbits mem_size Master.io_s2m_ack);
     s2m_data := truncate (Mem.s2m_data data_width regs)
                          (Master.nbits mem_size Master.io_s2m_data);
     s2m_error := truncate (Mem.s2m_error data_width mem_size i)
                           (Master.nbits mem_size Master.io_s2m_error) |}.

End Settle.

End Settle.

(** ** The bus between two routines

    [write] clears [m2s_we] before its loop and [read] never sets it, so
    between two routines no write is on the bus, unless [write] left on the
    error flag at its first poll: the cleared [m2s_we] is then still to be
    committed. *)
Definition bus_idle {St : Type} (s : @Master.Sim St) : bool :=
  negb (Z.testbit (m2s_we (Master.cur s)) 0)
  && negb (Z.testbit (m2s_we (Master.pend s)) 0).

(** ** The regression tests

    [Builder.test_regression] builds the design under test as
    [Master(None, mem_size, data_width, init_mem_values)] and runs each test
    on a fresh simulation with the same [mem_size], [data_width] and
    [init_mem_values].  The outcomes of the calls of [randrange] are
    parameters of the tests: [rand_word i] and [rand_addr i] are the two
    draws of turn [i] of the write loop, [rand_location] the draw of the
    error test. *)

Module Tests.

(** A Python [dict] with integer keys, in insertion order: [update] of a
    key that is present replaces its value in place, a new key is added at
    the end; [items()] is the list itself. *)
Definition dict : Type := list (Z * Z).

Fixpoint dict_update (k v : Z) (d : dict) : dict :=
  match d with
  | [] => [(k, v)]
  | (k', v') :: d' =>
      if k' =? k then (k, v) :: d' else (k', v') :: dict_update k v d'
  end.

Fixpoint dict_get (k : Z) (d : dict) : option Z :=
  match d with
  | [] => None
  | (k', v') :: d' => if k' =? k then Some v' else dict_get k d'
  end.

(** How a test ends: it runs through, or the [assert timeout < 20] of a
    routine of [Master] fails, or an [assert] of the test itself fails, or
    [randrange] raises [ValueError] on an empty range. *)
Inductive result (A : Type) :=
| Passed (a : A) (s : @Master.Sim Mem.Regs)
| RoutineAssertionError (timeout : Z) (s : @Master.Sim Mem.Regs)
| TestAssertionError (s : @Master.Sim Mem.Regs)
| ValueError
| OutOfFuel.
Arguments Passed {A} a s.
Arguments RoutineAssertionError {A} timeout s.
Arguments TestAssertionError {A} s.
Arguments ValueError {A}.
Arguments OutOfFuel {A}.

(** [randrange(start, stop)] with the outcome [draw] of the generator: it
    raises on an empty range. *)
Definition randrange (start stop draw : Z) : option Z :=
  if start <? stop then Some draw else None.

(** [ret == (value, 0)] on a pair of integers. *)
Definition pair_eqb (a b : Z * Z) : bool :=
  (fst a =? fst b) && (snd a =? snd b).

Section Tests.

Variables (mem_size data_width : Z) (init_mem_values : option (list Z)).
Variables (rand_word rand_addr : nat -> Z) (rand_location : Z).

(** [Memory(..., init=None)] has no initial words. *)
Definition dut_init : list Z := default [] init_mem_values.

(** The loop of [test_write_range_width] over the turns [turns] that are
    left. *)
Fixpoint write_loop (regress_times : option Z) (turns : list nat)
    (value_written : dict) (s : @Master.Sim Mem.Regs) : result dict :=
  match turns with
  | [] => Passed value_written s
  | i :: turns' =>
      match randrange 0 (2 ^ data_width) (rand_word i) with
      | None => ValueError
      | Some to_write =>
          match randrange 0 mem_size (rand_addr i) with
          | None => ValueError
          | Some addr =>
              let addr := match regress_times with
                          | None => Z.of_nat i
                          | Some _ => addr
                          end in
              let value_written := dict_update addr to_write value_written in
              match dut_write mem_size data_width dut_init addr to_write s with
              | Master.Return wrote_value s' =>
                  if pair_eqb wrote_value (to_write, 0)
                  then write_loop regress_times turns' value_written s'
                  else TestAssertionError s'
              | Master.AssertionError timeout s' => RoutineAssertionError timeout s'
              | Master.OutOfFuel => OutOfFuel
              end
          end
      end
  end.

(** [test_write_range_width]. *)
Definition test_write_range_width (regress_times : option Z)
    (s : @Master.Sim Mem.Regs) : result dict :=
  let counter := match regress_times with
                 | None => mem_size
                 | Some n => n
                 end in
  write_loop regress_times (seq 0 (Z.to_nat counter)) [] s.

(** The first lines of [test_read_range_width]: the words the reads are
    compared with.  [init_mem_values] is the argument of the test, which
    [test_write_read_range_width] leaves out. *)
Definition read_expected (value_written : option dict)
    (init_mem_values : option (list Z)) : dict :=
  let init_mem_values :=
    match init_mem_values with
    | None => replicate (Z.to_nat mem_size) 0
    | Some l => l
    end in
  let init_mem_values :=
    if Z.of_nat (length init_mem_values) <? mem_size
    then init_mem_values ++ replicate (Z.to_nat mem_size) 0
    else init_mem_values in
  match value_written with
  | Some d => d
  | None =>
      fold_left
        (fun d addr => dict_update (Z.of_nat addr) (default 0 (init_mem_values !! addr)) d)
        (seq 0 (Z.to_nat mem_size)) []
  end.

(** The loop of [test_read_range_width] over the items that are left. *)
Fixpoint read_loop (items : list (Z * Z)) (s : @Master.Sim Mem.Regs) : result unit :=
  match items with
  | [] => Passed tt s
  | (addr, value) :: items' =>
      match dut_read mem_size data_width dut_init addr s with
      | Master.Return ret s' =>
          if pair_eqb ret (value, 0)
          then read_loop items'
                 (Master.tick (slave := Mem_responder data_width mem_size dut_init) s')
          else TestAssertionError s'
      | Master.AssertionError timeout s' => RoutineAssertionError timeout s'
      | Master.OutOfFuel => OutOfFuel
      end
  end.

(** [test_read_range_width]. *)
Definition test_read_range_width (value_written : option dict)
    (init_mem_values : option (list Z)) (s : @Master.Sim Mem.Regs) : result unit :=
  read_loop (read_expected value_written init_mem_values) s.

(** [test_write_read_range_width]. *)
Definition test_write_read_range_width (regress_times : option Z)
    (s : @Master.Sim Mem.Regs) : result unit :=
  match test_write_range_width regress_times s with
  | Passed value_written s' => test_read_range_width (Some value_written) None s'
  | RoutineAssertionError timeout s' => RoutineAssertionError timeout s'
  | TestAssertionError s' => TestAssertionError s'
  | ValueError => ValueError
  | OutOfFuel => OutOfFuel
  end.

(** [test_write_read_range_max_error]. *)
Definition test_write_read_range_max_error (s : @Master.Sim Mem.Regs) : result unit :=
  let max := mem_size ^ 2 in
  match randrange (mem_size + 1) max rand_location with
  | None => ValueError
  | Some rand_location =>
      match dut_read mem_size data_width dut_init rand_location s with
      | Master.Return value s' =>
          if snd value =? 1 then Passed tt s' else TestAssertionError s'
      | Master.AssertionError timeout s' => RoutineAssertionError timeout s'
      | Master.OutOfFuel => OutOfFuel
      end
  end.

(** The simulation a test starts in: that of the design
    [Builder.test_regression] builds for it, if it can be built. *)
Definition fresh : option (@Master.Sim Mem.Regs) :=
  dut_build mem_size data_width dut_init.

End Tests.

End Tests.

(** ** Signals and their truncation *)

Section Truncate.

Lemma nbits_default_1 : nbits_default = 1.
Proof. reflexivity. Qed.

Lemma truncate_mod v n : 0 <= n -> truncate v n = v mod 2 ^ n.
Proof.
  intros Hn. unfold truncate.
  replace (2 ^ n - 1) with (Z.ones n) by (rewrite Z.ones_equiv; lia).
  now apply Z.land_ones.
Qed.

Lemma truncate_idem v n : truncate (truncate v n) n = truncate v n.
Proof.
  unfold truncate. now rewrite <- Z.land_assoc, Z.land_diag.
Qed.

Lemma truncate_small v n : 0 <= v < 2 ^ n -> truncate v n = v.
Proof.
  intros Hv. destruct (Z.le_gt_cases 0 n) as [Hn | Hn].
  - rewrite truncate_mod by assumption. apply Z.mod_small; lia.
  - rewrite Z.pow_neg_r in Hv by assumption. lia.
Qed.

Lemma truncate_le v n : 0 <= v -> 0 <= n -> truncate v n <= v.
Proof.
  intros Hv Hn. rewrite truncate_mod by assumption.
  apply Z.mod_le; [assumption | apply Z.pow_pos_nonneg; lia].
Qed.

(** A one-bit signal holds the lowest bit of what is assigned to it. *)
Lemma truncate_bit v : truncate v 1 = Z.b2z (Z.testbit v 0).
Proof.
  rewrite truncate_mod by lia. now rewrite Z.bit0_mod.
Qed.

Lemma truthy_b2z b : truthy (Z.b2z b) = b.
Proof. now destruct b. Qed.

End Truncate.

(** ** The combinatorial signals of [Mem] in closed form *)

Section MemSignals.

Variables (data_width mem_size : Z).

Lemma Mem_s2m_error_b2z (i : M2S) :
  Mem.s2m_error data_width mem_size i = Z.b2z (mem_size <=? m2s_addr i).
Proof.
  unfold Mem.s2m_error, op_ge. rewrite truthy_b2z.
  now destruct (mem_size <=? m2s_addr i).
Qed.

Lemma Mem_ports_we_bit (i : M2S) :
  Mem.mem_ports_we i = Z.b2z (Z.testbit (m2s_we i) 0).
Proof. unfold Mem.mem_ports_we. rewrite nbits_default_1. apply truncate_bit. Qed.

Lemma Mem_ack_re_b2z (r : Mem.Regs) (i : M2S) :
  Mem.ack_re r i =
  Z.b2z ((Mem.addr_new r =? m2s_addr i) && negb (Z.testbit (m2s_we i) 0)).
Proof.
  unfold Mem.ack_re, op_and, op_eq. rewrite Mem_ports_we_bit.
  destruct (Mem.addr_new r =? m2s_addr i), (Z.testbit (m2s_we i) 0); reflexivity.
Qed.

Lemma Mem_s2m_ack_b2z (r : Mem.Regs) (i : M2S) :
  Mem.s2m_ack data_width mem_size r i =
  Z.b2z ((((Mem.addr_new r =? m2s_addr i) && negb (Z.testbit (m2s_we i) 0))
          || Z.testbit (Mem.ack_we r) 0)
         && negb (mem_size <=? m2s_addr i)).
Proof.
  unfold Mem.s2m_ack, op_and, op_or, op_invert. cbn [Mem.nbits].
  rewrite nbits_default_1, truncate_bit.
  rewrite Z.land_spec, Z.lor_spec, Z.lnot_spec by lia.
  rewrite Mem_ack_re_b2z, Mem_s2m_error_b2z.
  destruct (Mem.addr_new r =? m2s_addr i), (Z.testbit (m2s_we i) 0),
    (Z.testbit (Mem.ack_we r) 0), (mem_size <=? m2s_addr i); reflexivity.
Qed.

(** The clamped index of a non-empty array is one of its positions. *)
Lemma array_idx_lt (choices : list Z) (key : Z) :
  choices <> [] -> (array_idx choices key < length choices)%nat.
Proof.
  intros Hne. unfold array_idx.
  assert (0 < length choices)%nat by (destruct choices; [congruence | cbn; lia]).
  lia.
Qed.

Lemma array_idx_assign (choices : list Z) (key value key' : Z) :
  array_idx (array_assign choices key value) key' = array_idx choices key'.
Proof. unfold array_idx, array_assign. now rewrite length_insert. Qed.

Lemma array_eval_assign (choices : list Z) (key value : Z) :
  choices <> [] -> array_eval (array_assign choices key value) key = value.
Proof.
  intros Hne. unfold array_eval. rewrite array_idx_assign.
  unfold array_assign. rewrite list_lookup_insert_eq; [reflexivity |].
  now apply array_idx_lt.
Qed.

Lemma array_assign_nonempty (choices : list Z) (key value : Z) :
  choices <> [] -> array_assign choices key value <> [].
Proof.
  intros Hne Heq. apply (f_equal length) in Heq.
  unfold array_assign in Heq. rewrite length_insert in Heq.
  destruct choices; [congruence | discriminate].
Qed.

End MemSignals.

(** ** The combinatorial signals settle on the values of the embedding *)

Section Settling.

Variables (mem_size data_width : Z).
Variables (regs : Mem.Regs) (m2s : M2S).

Let pass := Settle.comb_pass mem_size data_width regs m2s.
Let settled := Settle.settled mem_size data_width regs m2s.

(** Five passes from any values give the values of the embedding: the
    longest chain of statements, from [m2s_we] of [Master] to its
    [s2m_ack], has five links. *)
Lemma comb_pass_five (c : Settle.Comb) :
  pass (pass (pass (pass (pass c)))) = settled.
Proof. reflexivity. Qed.

Lemma comb_pass_settled : pass settled = settled.
Proof. reflexivity. Qed.

Lemma comb_fixpoint_unique (c : Settle.Comb) : pass c = c -> c = settled.
Proof.
  intros Hc. rewrite <- (comb_pass_five c). now rewrite !Hc.
Qed.

Lemma propagate_reaches (k : nat) :
  forall (fuel : nat) (c : Settle.Comb),
    Nat.iter k pass c = settled -> (k < fuel)%nat ->
    Settle.propagate mem_size data_width regs m2s fuel c = Some settled.
Proof.
  induction k as [| k IH]; intros fuel c Hk Hfuel;
    (destruct fuel as [| fuel]; [lia |]); cbn [Settle.propagate];
    fold pass; destruct (decide (pass c = c)) as [Hc | Hc].
  - f_equal. now apply comb_fixpoint_unique.
  - cbn in Hk. subst c. exfalso. apply Hc. apply comb_pass_settled.
  - f_equal. now apply comb_fixpoint_unique.
  - apply IH; [| lia]. now rewrite <- Nat.iter_succ_r.
Qed.

(** The response signals the generator reads are the settled ones. *)
Lemma settled_Master_signals (init : list Z) (s : Master.Sim) :
  regs = Master.slave_regs s -> m2s = Master.cur s ->
  Settle.s2m_ack settled
  = Master.s2m_ack mem_size (slave := Mem_responder data_width mem_size init) s /\
  Settle.s2m_data settled
  = Master.s2m_data mem_size (slave := Mem_responder data_width mem_size init) s /\
  Settle.s2m_error settled
  = Master.s2m_error mem_size (slave := Mem_responder data_width mem_size init) s.
Proof. intros -> ->. repeat split. Qed.

(** X8.  Whatever the signals hold before, the propagation stops, within six
    passes, on the values of the embedding. *)
Lemma propagate_settles (fuel : nat) (c : Settle.Comb) :
  (5 < fuel)%nat ->
  Settle.propagate mem_size data_width regs m2s fuel c = Some settled.
Proof.
  intros Hfuel. apply (propagate_reaches 5); [| exact Hfuel].
  apply comb_pass_five.
Qed.

End Settling.

(** ** The responder [Mem] *)

(** An address below [mem_size] fits the address signal of the memory
    port, [Signal(max=mem_size)]. *)
Lemma address_fits_port (mem_size adr : Z) :
  0 <= adr < mem_size -> adr < 2 ^ Mem.adr_nbits mem_size.
Proof.
  intros Ha. unfold Mem.adr_nbits, nbits_max.
  change (bits_for 0) with 1.
  destruct (Z.eq_dec mem_size 1) as [-> | Hne].
  - cbn. lia.
  - assert (Hpos : 0 < mem_size - 1) by lia.
    assert (Hb : bits_for (mem_size - 1) = Z.log2 (mem_size - 1) + 1).
    { unfold bits_for, log2_int, bit_length.
      destruct (Z.ltb_spec 0 (mem_size - 1)); [| lia].
      replace (mem_size - 1 + 1 - 1) with (mem_size - 1) by lia.
      destruct (Z.eqb_spec (mem_size - 1 + 1) 0); [lia |].
      destruct (Z.eqb_spec (mem_size - 1) 0); [lia |].
      now rewrite Z.abs_eq by lia. }
    rewrite Hb.
    pose proof (Z.log2_spec (mem_size - 1) Hpos) as [_ Hlt].
    pose proof (Z.log2_nonneg (mem_size - 1)).
    replace (Z.succ (Z.log2 (mem_size - 1))) with (Z.log2 (mem_size - 1) + 1) in Hlt by lia.
    assert (2 ^ (Z.log2 (mem_size - 1) + 1)
            <= 2 ^ Z.max 1 (Z.log2 (mem_size - 1) + 1))
      by (apply Z.pow_le_mono_r; lia).
    lia.
Qed.

(** C3.  On an edge at which [m2s_we] is asserted, the word of the memory
    that the address selects is overwritten with [m2s_data], and no other
    word changes, whatever the error flag says.  The word selected is the one
    of index [min(m2s_addr mod 2^n, len - 1)], with [n] the width of the port
    address and [len] the number of words: for an address below [mem_size]
    it is the word of that very index, and [s2m_error] is [0]; for an address
    [>= mem_size] the word the address wraps or clamps to is overwritten all
    the same, while [s2m_error] is asserted and [s2m_ack] is not. *)
Theorem write_commit_not_gated_by_error
    (data_width mem_size : Z) (r : Mem.Regs) (i : M2S) :
  Mem.storage r <> [] ->
  m2s_we i = 1 ->
  0 <= m2s_data i < 2 ^ data_width ->
  let idx :=
    Z.to_nat (Z.min (m2s_addr i mod 2 ^ Mem.adr_nbits mem_size)
                    (Z.of_nat (length (Mem.storage r)) - 1)) in
  let r' := Mem.sync data_width mem_size r i in
  idx = array_idx (Mem.storage r) (Mem.mem_ports_adr mem_size i) /\
  (idx < length (Mem.storage r))%nat /\
  Mem.storage r' = <[idx := m2s_data i]> (Mem.storage r) /\
  Mem.storage r' !! idx = Some (m2s_data i) /\
  (forall j, j <> idx -> Mem.storage r' !! j = Mem.storage r !! j) /\
  (0 <= m2s_addr i < mem_size ->
   (Z.to_nat (m2s_addr i) < length (Mem.storage r))%nat ->
   idx = Z.to_nat (m2s_addr i) /\
   Mem.storage r' !! Z.to_nat (m2s_addr i) = Some (m2s_data i) /\
   Mem.s2m_error data_width mem_size i = 0) /\
  (mem_size <= m2s_addr i ->
   Mem.s2m_error data_width mem_size i = 1 /\
   Mem.s2m_ack data_width mem_size r i = 0).
Proof.
  intros Hne Hwe Hdat idx r'.
  assert (Hn : 0 <= Mem.adr_nbits mem_size).
  { unfold Mem.adr_nbits, nbits_max. change (bits_for 0) with 1. lia. }
  assert (Hkey : idx = array_idx (Mem.storage r) (Mem.mem_ports_adr mem_size i)).
  { subst idx. unfold array_idx, Mem.mem_ports_adr.
    now rewrite truncate_mod by assumption. }
  assert (Hidx : (idx < length (Mem.storage r))%nat)
    by (rewrite Hkey; now apply array_idx_lt).
  assert (Hst : Mem.storage r' = <[idx := m2s_data i]> (Mem.storage r)).
  { rewrite Hkey. subst r'. unfold Mem.sync. cbn [Mem.storage].
    unfold Mem.mem_ports_we, Mem.mem_ports_dat_w. rewrite Hwe. cbn [truthy].
    rewrite truncate_idem, (truncate_small (m2s_data i)) by assumption.
    reflexivity. }
  assert (Hword : Mem.storage r' !! idx = Some (m2s_data i))
    by (rewrite Hst; now apply list_lookup_insert_eq).
  split; [exact Hkey |]. split; [exact Hidx |]. split; [exact Hst |].
  split; [exact Hword |]. split; [| split].
  - intros j Hj. rewrite Hst. apply list_lookup_insert_ne. congruence.
  - intros Ha Hlen.
    assert (Hi : idx = Z.to_nat (m2s_addr i)).
    { subst idx. pose proof (address_fits_port mem_size (m2s_addr i) Ha).
      rewrite Z.mod_small by lia. lia. }
    split; [exact Hi |]. split; [now rewrite <- Hi |].
    rewrite Mem_s2m_error_b2z.
    destruct (Z.leb_spec mem_size (m2s_addr i)); [lia | reflexivity].
  - intros Ha. split.
    + rewrite Mem_s2m_error_b2z.
      destruct (Z.leb_spec mem_size (m2s_addr i)); [reflexivity | lia].
    + rewrite Mem_s2m_ack_b2z.
      destruct (Z.leb_spec mem_size (m2s_addr i)); [| lia].
      now rewrite andb_false_r.
Qed.

Lemma write_commit_not_gated_by_error_witness :
  let r := Mem.reset 10 [] in
  (* in range: address 3 selects word 3, and only word 3 *)
  Mem.storage (Mem.sync 8 10 r (mkM2S 1 77 3)) !! 3%nat = Some 77 /\
  Mem.storage (Mem.sync 8 10 r (mkM2S 1 77 3)) !! 9%nat = Some 0 /\
  Mem.s2m_error 8 10 (mkM2S 1 77 3) = 0 /\
  (* out of range: address 15 is clamped to the last word, 9 *)
  Mem.storage (Mem.sync 8 10 r (mkM2S 1 77 15)) !! 9%nat = Some 77 /\
  Mem.s2m_error 8 10 (mkM2S 1 77 15) = 1 /\
  (* out of range: address 16 wraps to word 0 *)
  Mem.storage (Mem.sync 8 10 r (mkM2S 1 77 16)) !! 0%nat = Some 77 /\
  Mem.s2m_error 8 10 (mkM2S 1 77 16) = 1.
Proof.
  intros r.
  assert (Hne : Mem.storage r <> []) by discriminate.
  assert (Hdat : 0 <= 77 < 2 ^ 8) by (cbn; lia).
  pose proof (write_commit_not_gated_by_error 8 10 r (mkM2S 1 77 3)
                Hne eq_refl Hdat) as H3.
  pose proof (write_commit_not_gated_by_error 8 10 r (mkM2S 1 77 15)
                Hne eq_refl Hdat) as H15.
  pose proof (write_commit_not_gated_by_error 8 10 r (mkM2S 1 77 16)
                Hne eq_refl Hdat) as H16.
  cbv zeta in H3, H15, H16.
  destruct H3 as (_ & _ & _ & _ & Hother3 & Hin3 & _).
  destruct H15 as (_ & _ & _ & Hword15 & _ & _ & Herr15).
  destruct H16 as (_ & _ & _ & Hword16 & _ & _ & Herr16).
  destruct (Hin3 ltac:(cbn; lia) ltac:(vm_compute; lia)) as (_ & Hword3 & Herr3).
  split; [exact Hword3 |].
  split; [rewrite (Hother3 9%nat) by (vm_compute; lia); reflexivity |].
  split; [exact Herr3 |].
  split; [exact Hword15 |].
  split; [exact (proj1 (Herr15 ltac:(cbn; lia))) |].
  split; [exact Hword16 |].
  exact (proj1 (Herr16 ltac:(cbn; lia))).
Defined.

(** C4.  Whatever the registers and the inputs of [Mem] are, [s2m_ack] and
    [s2m_error] are not asserted together: an asserted [s2m_ack] implies a
    deasserted [s2m_error]. *)
Theorem ack_implies_no_error
    (data_width mem_size : Z) (r : Mem.Regs) (i : M2S) :
  truthy (Mem.s2m_ack data_width mem_size r i) = true ->
  Mem.s2m_error data_width mem_size i = 0.
Proof.
  rewrite Mem_s2m_ack_b2z, Mem_s2m_error_b2z, truthy_b2z.
  intros H. apply andb_true_iff in H. destruct H as [_ H].
  now destruct (mem_size <=? m2s_addr i).
Qed.

Lemma ack_implies_no_error_witness :
  truthy (Mem.s2m_ack 8 10 (Mem.reset 10 []) (mkM2S 0 0 0)) = true /\
  Mem.s2m_error 8 10 (mkM2S 0 0 0) = 0.
Proof.
  split; [reflexivity |].
  apply (ack_implies_no_error 8 10 (Mem.reset 10 []) (mkM2S 0 0 0)).
  reflexivity.
Defined.

(** C5.  [s2m_error] is a function of the inputs of the current tick alone:
    it is [1] exactly when the address is [>= mem_size] and [0] exactly
    when it is below, whatever [m2s_we] and [m2s_data] are. *)
Theorem error_iff_address_out_of_range
    (data_width mem_size : Z) (i : M2S) :
  (Mem.s2m_error data_width mem_size i = 1 <-> mem_size <= m2s_addr i) /\
  (Mem.s2m_error data_width mem_size i = 0 <-> m2s_addr i < mem_size) /\
  (forall we data : Z,
     Mem.s2m_error data_width mem_size (mkM2S we data (m2s_addr i)) =
     Mem.s2m_error data_width mem_size i).
Proof.
  rewrite Mem_s2m_error_b2z. repeat split.
  - destruct (Z.leb_spec mem_size (m2s_addr i)); [trivial | discriminate].
  - intros H. destruct (Z.leb_spec mem_size (m2s_addr i)); [reflexivity | lia].
  - destruct (Z.leb_spec mem_size (m2s_addr i)); [discriminate | trivial].
  - intros H. destruct (Z.leb_spec mem_size (m2s_addr i)); [lia | reflexivity].
  - intros we data. now rewrite Mem_s2m_error_b2z.
Qed.

Lemma Mem_sync_ack_we (data_width mem_size : Z) (r : Mem.Regs) (i : M2S) :
  Mem.ack_we (Mem.sync data_width mem_size r i) = Z.b2z (Z.testbit (m2s_we i) 0).
Proof.
  unfold Mem.sync. cbn [Mem.ack_we]. unfold Mem.mem_ports_we.
  now rewrite truncate_idem, nbits_default_1, truncate_bit.
Qed.

Lemma Mem_sync_addr_new (data_width mem_size : Z) (r : Mem.Regs) (i : M2S) :
  Mem.addr_new (Mem.sync data_width mem_size r i) = truncate (m2s_addr i) data_width.
Proof. reflexivity. Qed.

(** C6.  [ack_we] is a register: after each edge it holds the write enable
    of the tick before.  While a write is requested, [s2m_ack] is that
    register gated by the error flag, so it answers the request of the tick
    before, never the current one.  A write requested at tick [t] (with no
    write requested at tick [t-1]) is thus not acknowledged at tick [t]:
    [s2m_ack] is [0] there; at tick [t+1] the register is set, and [s2m_ack]
    is asserted unless the address of that tick is out of range. *)
Theorem write_ack_one_tick_after_request
    (data_width mem_size : Z) (init : list Z) (ins : nat -> M2S) (t : nat) :
  m2s_we (ins t) = 1 ->
  (forall t', t = S t' -> m2s_we (ins t') = 0) ->
  let regs := Mem.run data_width mem_size init ins in
  (forall r i, Mem.ack_we (Mem.sync data_width mem_size r i)
               = truncate (m2s_we i) nbits_default) /\
  (forall r i, m2s_we i = 1 ->
               Mem.s2m_ack data_width mem_size r i
               = Z.b2z (Z.testbit (Mem.ack_we r) 0
                        && negb (mem_size <=? m2s_addr i))) /\
  Mem.ack_we (regs t) = 0 /\
  Mem.s2m_ack data_width mem_size (regs t) (ins t) = 0 /\
  Mem.ack_we (regs (S t)) = 1 /\
  Mem.s2m_ack data_width mem_size (regs (S t)) (ins (S t))
  = Z.b2z (negb (mem_size <=? m2s_addr (ins (S t)))).
Proof.
  intros Hwe Hprev regs.
  assert (Hreg : Mem.ack_we (regs t) = 0).
  { subst regs. destruct t as [| t']; [reflexivity |].
    cbn [Mem.run]. rewrite Mem_sync_ack_we, (Hprev t' eq_refl). reflexivity. }
  assert (Hnext : Mem.ack_we (regs (S t)) = 1).
  { subst regs. cbn [Mem.run]. rewrite Mem_sync_ack_we, Hwe. reflexivity. }
  split; [| split; [| split; [| split; [| split]]]].
  - intros r i. rewrite Mem_sync_ack_we, nbits_default_1. symmetry. apply truncate_bit.
  - intros r i Hi. rewrite Mem_s2m_ack_b2z, Hi.
    change (Z.testbit 1 0) with true. cbn [negb]. now rewrite andb_false_r.
  - exact Hreg.
  - rewrite Mem_s2m_ack_b2z, Hreg, Hwe. cbn. now rewrite andb_false_r.
  - exact Hnext.
  - rewrite Mem_s2m_ack_b2z, Hnext. cbn [Z.testbit]. now rewrite orb_true_r.
Qed.

Lemma write_ack_one_tick_after_request_witness :
  let ins := fun t : nat => match t with 1%nat => mkM2S 1 42 3 | _ => mkM2S 0 42 3 end in
  let regs := Mem.run 8 10 [] ins in
  m2s_we (ins 1%nat) = 1 /\
  (forall t', 1%nat = S t' -> m2s_we (ins t') = 0) /\
  Mem.s2m_ack 8 10 (regs 1%nat) (ins 1%nat) = 0 /\
  Mem.s2m_ack 8 10 (regs 2%nat) (ins 2%nat) = 1.
Proof.
  intros ins regs.
  assert (Hwe : m2s_we (ins 1%nat) = 1) by reflexivity.
  assert (Hprev : forall t', 1%nat = S t' -> m2s_we (ins t') = 0).
  { intros t' Ht. injection Ht as <-. reflexivity. }
  pose proof (write_ack_one_tick_after_request 8 10 [] ins 1 Hwe Hprev) as H.
  cbv zeta in H. destruct H as (_ & _ & _ & Hnow & _ & Hlater).
  split; [exact Hwe |]. split; [exact Hprev |]. split; [exact Hnow |].
  exact Hlater.
Defined.



(** ** The initiator [Master] *)

Section MasterLoop.

Variable mem_size : Z.
Context {St : Type} {slave : Responder St}.

Let Sim := (@Master.Sim St).

(** One turn of the poll loop. *)
Lemma while_poll_unfold (fuel : nat) (timeout : Z) (s : Sim) :
  Master.while_poll mem_size (S fuel) timeout s =
  if Master.poll_done mem_size s then Master.Return timeout s
  else if timeout + 1 <? 20
       then Master.while_poll mem_size fuel (timeout + 1) (Master.tick s)
       else Master.AssertionError (timeout + 1) s.
Proof.
  cbn [Master.while_poll]. unfold Master.poll_done, Master.bind.
  unfold Master.yield_s2m_ack at 1.
  destruct (truthy (Master.s2m_ack mem_size s)) eqn:Hack.
  - unfold Master.ret at 1. rewrite Hack. reflexivity.
  - unfold Master.yield_s2m_error at 1.
    destruct (truthy (Master.s2m_error mem_size s)) eqn:Herr; cbn [orb negb].
    + reflexivity.
    + unfold Master.assert_timeout.
      destruct (timeout + 1 <? 20); reflexivity.
Qed.

Lemma now_iter_tick (k : nat) (s : Sim) :
  Master.now (Nat.iter k Master.tick s) = (Master.now s + k)%nat.
Proof.
  induction k as [| k IH]; [cbn; lia |].
  rewrite Nat.iter_succ. cbn [Master.tick Master.now]. rewrite IH. lia.
Qed.

(** The loop never meets the bound of the recursion: [20 - timeout] turns
    are the most it makes. *)
Lemma while_poll_fuel (fuel : nat) (timeout : Z) (s : Sim) :
  20 - timeout <= Z.of_nat fuel -> (0 < fuel)%nat ->
  Master.while_poll mem_size fuel timeout s <> Master.OutOfFuel.
Proof.
  revert timeout s. induction fuel as [| fuel IH]; intros timeout s Hle Hpos; [lia |].
  rewrite while_poll_unfold.
  destruct (Master.poll_done mem_size s); [discriminate |].
  destruct (Z.ltb_spec (timeout + 1) 20); [| discriminate].
  apply IH; lia.
Qed.

(** A loop that is never answered fails at its [n]-th poll, where
    [n = 20 - timeout], after [n - 1] further edges. *)
Lemma while_poll_silent (n : nat) :
  (forall s : Sim, Master.poll_done mem_size s = false) ->
  forall (fuel : nat) (timeout : Z) (s : Sim),
    (S n <= fuel)%nat -> timeout = 19 - Z.of_nat n ->
    Master.while_poll mem_size fuel timeout s =
    Master.AssertionError 20 (Nat.iter n Master.tick s).
Proof.
  intros Hsilent. induction n as [| n IH]; intros fuel timeout s Hfuel Ht.
  - destruct fuel as [| fuel]; [lia |].
    rewrite while_poll_unfold, Hsilent. subst timeout. reflexivity.
  - destruct fuel as [| fuel]; [lia |].
    rewrite while_poll_unfold, Hsilent.
    destruct (Z.ltb_spec (timeout + 1) 20); [| lia].
    rewrite (IH fuel (timeout + 1) (Master.tick s)) by lia.
    now rewrite Nat.iter_succ_r.
Qed.

(** [write] up to its loop, and from its loop on. *)
Lemma write_unfold (adr dat : Z) (s : Sim) :
  Master.write mem_size adr dat s =
  match Master.while_poll mem_size 20 0 (Master.write_first_poll mem_size adr dat s) with
  | Master.Return _ s' =>
      Master.Return (Master.s2m_data mem_size s', Master.s2m_error mem_size s') s'
  | Master.AssertionError t s' => Master.AssertionError t s'
  | Master.OutOfFuel => Master.OutOfFuel
  end.
Proof.
  unfold Master.write, Master.bind at 1 2 3 4 5 6.
  cbn [Master.yield_m2s_addr_eq Master.yield_m2s_data_eq Master.yield_m2s_we_eq
       Master.yield_ Master.tick Master.slave_regs Master.cur Master.pend Master.now
       m2s_we m2s_data m2s_addr].
  unfold Master.write_first_poll.
  destruct (Master.while_poll _ _ _ _); reflexivity.
Qed.

(** [read] up to its loop, and from its loop on. *)
Lemma read_unfold (adr : Z) (s : Sim) :
  Master.read mem_size adr s =
  match Master.while_poll mem_size 20 0 (Master.read_first_poll mem_size adr s) with
  | Master.Return _ s' =>
      Master.Return (Master.s2m_data mem_size s', Master.s2m_error mem_size s') s'
  | Master.AssertionError t s' => Master.AssertionError t s'
  | Master.OutOfFuel => Master.OutOfFuel
  end.
Proof.
  unfold Master.read, Master.bind at 1 2 3.
  cbn [Master.yield_m2s_addr_eq Master.yield_ Master.tick Master.slave_regs
       Master.cur Master.pend Master.now m2s_we m2s_data m2s_addr].
  unfold Master.read_first_poll.
  destruct (Master.while_poll _ _ _ _); reflexivity.
Qed.

(** Neither routine meets the bound of the recursion, whatever the slave
    is: each either returns or fails its assertion. *)
Lemma write_read_total (adr dat : Z) (s : Sim) :
  Master.write mem_size adr dat s <> Master.OutOfFuel /\
  Master.read mem_size adr s <> Master.OutOfFuel.
Proof.
  split.
  - rewrite write_unfold.
    pose proof (while_poll_fuel 20 0 (Master.write_first_poll mem_size adr dat s)
                  ltac:(cbn; lia) ltac:(lia)) as H.
    destruct (Master.while_poll _ _ _ _); [discriminate | discriminate | congruence].
  - rewrite read_unfold.
    pose proof (while_poll_fuel 20 0 (Master.read_first_poll mem_size adr s)
                  ltac:(cbn; lia) ltac:(lia)) as H.
    destruct (Master.while_poll _ _ _ _); [discriminate | discriminate | congruence].
Qed.

End MasterLoop.

(** C7.  Against a responder that never asserts [s2m_ack] nor [s2m_error],
    [write] and [read] both end in the [AssertionError] of
    [assert timeout < 20] with [timeout = 20], that is at the 20th poll of
    the loop: 20 edges after the call (one before the loop, 19 in it), not
    earlier and not later. *)
Theorem timeout_at_twentieth_poll
    {St : Type} (slave : Responder St) (mem_size adr dat : Z) (s : Master.Sim) :
  (forall st m, truncate (resp_s2m_ack st m) nbits_default = 0 /\
                truncate (resp_s2m_error st m) nbits_default = 0) ->
  (exists s', Master.write mem_size adr dat s = Master.AssertionError 20 s' /\
              Master.now s' = (Master.now s + 20)%nat) /\
  (exists s', Master.read mem_size adr s = Master.AssertionError 20 s' /\
              Master.now s' = (Master.now s + 20)%nat).
Proof.
  intros Hsilent.
  assert (Hdone : forall s0 : Master.Sim, Master.poll_done mem_size s0 = false).
  { intros s0. unfold Master.poll_done, Master.s2m_ack, Master.s2m_error.
    cbn [Master.nbits].
    destruct (Hsilent (Master.slave_regs s0) (Master.cur s0)) as [-> ->].
    reflexivity. }
  split.
  - unfold Master.write, Master.bind at 1 2 3 4 5 6.
    cbn [Master.yield_m2s_addr_eq Master.yield_m2s_data_eq Master.yield_m2s_we_eq
         Master.yield_ Master.slave_regs Master.cur Master.pend Master.now
         m2s_we m2s_data m2s_addr].
    rewrite (while_poll_silent mem_size 19 Hdone) by (cbn; lia).
    eexists. split; [reflexivity |].
    rewrite now_iter_tick. cbn [Master.tick Master.now]. lia.
  - unfold Master.read, Master.bind at 1 2 3.
    cbn [Master.yield_m2s_addr_eq Master.yield_ Master.slave_regs Master.cur
         Master.pend Master.now m2s_we m2s_data m2s_addr].
    rewrite (while_poll_silent mem_size 19 Hdone) by (cbn; lia).
    eexists. split; [reflexivity |].
    rewrite now_iter_tick. cbn [Master.tick Master.now]. lia.
Qed.

Lemma timeout_at_twentieth_poll_witness :
  let s := Master.sim_reset (slave := silent_responder) in
  (forall st m, truncate (resp_s2m_ack st m) nbits_default = 0 /\
                truncate (resp_s2m_error st m) nbits_default = 0) /\
  (exists s', Master.write 10 3 42 s = Master.AssertionError 20 s' /\
              Master.now s' = 20%nat) /\
  (exists s', Master.read 10 3 s = Master.AssertionError 20 s' /\
              Master.now s' = 20%nat).
Proof.
  intros s.
  assert (Hsilent : forall (st : unit) (m : M2S),
             truncate (resp_s2m_ack st m) nbits_default = 0 /\
             truncate (resp_s2m_error st m) nbits_default = 0)
    by (intros st m; split; reflexivity).
  split; [exact Hsilent |].
  exact (timeout_at_twentieth_poll silent_responder 10 3 42 s Hsilent).
Defined.

(** ** [Master] on top of [Mem] *)

Section MasterMem.

Variables (mem_size data_width : Z) (init : list Z).

Let R := Mem_responder data_width mem_size init.
#[local] Existing Instance R | 0.
Let Sim := (@Master.Sim Mem.Regs).

Lemma truncate_b2z (b : bool) : truncate (Z.b2z b) 1 = Z.b2z b.
Proof. now destruct b. Qed.

Lemma dut_s2m_error (s : Sim) :
  Master.s2m_error mem_size (slave := R) s =
  Z.b2z (mem_size <=? truncate (m2s_addr (Master.cur s)) data_width).
Proof.
  unfold Master.s2m_error. cbn [Master.nbits resp_s2m_error R Mem_responder].
  rewrite Mem_s2m_error_b2z, nbits_default_1, truncate_b2z. reflexivity.
Qed.

Lemma dut_s2m_ack (s : Sim) :
  Master.s2m_ack mem_size (slave := R) s =
  Z.b2z ((((Mem.addr_new (Master.slave_regs s)
            =? truncate (m2s_addr (Master.cur s)) data_width)
           && negb (Z.testbit (m2s_we (Master.cur s)) 0))
          || Z.testbit (Mem.ack_we (Master.slave_regs s)) 0)
         && negb (mem_size <=? truncate (m2s_addr (Master.cur s)) data_width)).
Proof.
  unfold Master.s2m_ack. cbn [Master.nbits resp_s2m_ack R Mem_responder].
  rewrite Mem_s2m_ack_b2z, nbits_default_1, truncate_b2z.
  cbn [Mem_connect m2s_we m2s_addr Mem.nbits].
  rewrite nbits_default_1, truncate_bit.
  now destruct (Z.testbit (m2s_we (Master.cur s)) 0).
Qed.

Lemma dut_poll_done (s : Sim) :
  Master.poll_done mem_size (slave := R) s =
  (((Mem.addr_new (Master.slave_regs s)
            =? truncate (m2s_addr (Master.cur s)) data_width)
           && negb (Z.testbit (m2s_we (Master.cur s)) 0))
          || Z.testbit (Mem.ack_we (Master.slave_regs s)) 0)
  || (mem_size <=? truncate (m2s_addr (Master.cur s)) data_width).
Proof.
  unfold Master.poll_done. rewrite dut_s2m_ack, dut_s2m_error, !truthy_b2z.
  destruct (mem_size <=? _), (Z.testbit (Mem.ack_we _) 0), (_ =? _),
    (Z.testbit (m2s_we _) 0); reflexivity.
Qed.

Lemma write_answered (adr dat : Z) (s : Sim) :
  let s1 := Master.write_first_poll mem_size (slave := R) adr dat s in
  Master.poll_done mem_size s1 = true \/
  Master.poll_done mem_size (Master.tick s1) = true.
Proof.
  intros s1. rewrite !dut_poll_done.
  destruct (mem_size <=? truncate (m2s_addr (Master.cur s1)) data_width) eqn:He.
  - left. now rewrite orb_true_r.
  - right. subst s1.
    cbn [Master.tick Master.write_first_poll Master.slave_regs Master.cur Master.pend
         m2s_addr m2s_we resp_sync R Mem_responder] in *.
    rewrite Mem_sync_ack_we. cbn [Mem_connect m2s_we m2s_addr Master.nbits Mem.nbits] in *.
    rewrite He. change (truncate 1 nbits_default) with 1.
    change (Z.testbit (Z.b2z (Z.testbit 1 0)) 0) with true.
    now rewrite orb_true_r.
Qed.

Lemma read_answered (adr : Z) (s : Sim) :
  let s1 := Master.read_first_poll mem_size adr s in
  Master.poll_done mem_size s1 = true \/
  Master.poll_done mem_size (Master.tick s1) = true.
Proof.
  intros s1. rewrite !dut_poll_done.
  destruct (mem_size <=? truncate (m2s_addr (Master.cur s1)) data_width) eqn:He.
  - left. now rewrite orb_true_r.
  - right. subst s1.
    cbn [Master.tick Master.read_first_poll Master.slave_regs Master.cur Master.pend
         m2s_addr m2s_we resp_sync R Mem_responder] in *.
    rewrite Mem_sync_ack_we, Mem_sync_addr_new.
    cbn [Mem_connect m2s_we m2s_addr Master.nbits Mem.nbits] in *.
    rewrite He, truncate_idem, Z.eqb_refl, nbits_default_1, truncate_bit.
    now destruct (Z.testbit (m2s_we (Master.pend s)) 0).
Qed.

(** Both routines return, at their first or second poll. *)
Lemma write_returns (adr dat : Z) (s : Sim) :
  let s1 := Master.write_first_poll mem_size adr dat s in
  exists s',
    Master.write mem_size adr dat s =
    Master.Return (Master.s2m_data mem_size s', Master.s2m_error mem_size s') s' /\
    Master.poll_done mem_size s' = true /\
    (s' = s1 \/ Master.poll_done mem_size s1 = false /\ s' = Master.tick s1).
Proof.
  intros s1. rewrite write_unfold. fold s1.
  change 20%nat with (S (S 18)). rewrite !while_poll_unfold.
  destruct (Master.poll_done mem_size s1) eqn:H1.
  - exists s1. auto.
  - cbn [Z.add Z.ltb Z.compare Pos.compare Pos.compare_cont Pos.add].
    destruct (write_answered adr dat s) as [H | H]; fold s1 in H; [congruence |].
    rewrite H. exists (Master.tick s1). auto.
Qed.

Lemma read_returns (adr : Z) (s : Sim) :
  let s1 := Master.read_first_poll mem_size adr s in
  exists s',
    Master.read mem_size adr s =
    Master.Return (Master.s2m_data mem_size s', Master.s2m_error mem_size s') s' /\
    Master.poll_done mem_size s' = true /\
    (s' = s1 \/ Master.poll_done mem_size s1 = false /\ s' = Master.tick s1).
Proof.
  intros s1. rewrite read_unfold. fold s1.
  change 20%nat with (S (S 18)). rewrite !while_poll_unfold.
  destruct (Master.poll_done mem_size s1) eqn:H1.
  - exists s1. auto.
  - cbn [Z.add Z.ltb Z.compare Pos.compare Pos.compare_cont Pos.add].
    destruct (read_answered adr s) as [H | H]; fold s1 in H; [congruence |].
    rewrite H. exists (Master.tick s1). auto.
Qed.

(** Out of range at the [Mem]: [read] returns at its first poll with the
    error flag set. *)
Lemma read_error (adr : Z) (s : Sim) :
  mem_size <= truncate (truncate adr mem_size) data_width ->
  exists value s',
    Master.read mem_size adr s = Master.Return (value, 1) s' /\
    s' = Master.read_first_poll mem_size adr s.
Proof.
  intros Hge. destruct (read_returns adr s) as (s' & Hret & Hdone & Hs').
  assert (H1 : Master.s2m_error mem_size (Master.read_first_poll mem_size adr s) = 1).
  { rewrite dut_s2m_error. cbn [Master.read_first_poll Master.cur m2s_addr Master.nbits].
    destruct (Z.leb_spec mem_size (truncate (truncate adr mem_size) data_width));
      [reflexivity | lia]. }
  assert (Hd : Master.poll_done mem_size (Master.read_first_poll mem_size adr s) = true).
  { unfold Master.poll_done. rewrite H1. apply orb_true_r. }
  destruct Hs' as [-> | [Hf _]]; [| congruence].
  rewrite H1 in Hret. eauto.
Qed.

Lemma testbit_truncate_default (v : Z) :
  Z.testbit (truncate v nbits_default) 0 = Z.testbit v 0.
Proof.
  rewrite nbits_default_1, truncate_bit. now destruct (Z.testbit v 0).
Qed.

Lemma Mem_sync_storage_nonempty (r : Mem.Regs) (i : M2S) :
  Mem.storage r <> [] -> Mem.storage (Mem.sync data_width mem_size r i) <> [].
Proof.
  intros Hne. unfold Mem.sync. cbn [Mem.storage].
  destruct (truthy (Mem.mem_ports_we i)); [| assumption].
  now apply array_assign_nonempty.
Qed.

Lemma dut_s2m_data (s : Sim) :
  Master.s2m_data mem_size s =
  truncate (truncate (array_eval (Mem.storage (Master.slave_regs s))
                                 (Mem.adr_reg (Master.slave_regs s)))
                     data_width) mem_size.
Proof.
  unfold Master.s2m_data. cbn [Master.nbits resp_s2m_data R Mem_responder].
  unfold Mem.s2m_data, Mem.mem_ports_dat_r. cbn [Mem.nbits].
  now rewrite truncate_idem.
Qed.

Lemma address_in_range (adr : Z) :
  0 <= adr < mem_size ->
  truncate adr mem_size = adr /\ 
  (mem_size <=? truncate adr data_width) = false.
Proof.
  intros Ha. split.
  - apply truncate_small. split; [lia |].
    pose proof (Z.pow_gt_lin_r 2 mem_size ltac:(lia) ltac:(lia)). lia.
  - apply Z.leb_gt. destruct (Z.le_gt_cases 0 data_width) as [Hd | Hd].
    + pose proof (truncate_le adr data_width ltac:(lia) Hd). lia.
    + unfold truncate. rewrite Z.pow_neg_r by lia. cbn [Z.sub Z.opp Z.add Z.pos_sub].
      rewrite Z.land_m1_r. lia.
Qed.

Lemma Mem_sync_adr_reg (r : Mem.Regs) (i : M2S) :
  Mem.adr_reg (Mem.sync data_width mem_size r i) = Mem.mem_ports_adr mem_size i.
Proof.
  unfold Mem.sync. cbn [Mem.adr_reg]. unfold Mem.mem_ports_adr.
  apply truncate_idem.
Qed.

(** The word written at an edge is the one the port reads after it. *)
Lemma Mem_sync_write_read (r : Mem.Regs) (i : M2S) :
  Mem.storage r <> [] ->
  Z.testbit (m2s_we i) 0 = true ->
  array_eval (Mem.storage (Mem.sync data_width mem_size r i))
             (Mem.adr_reg (Mem.sync data_width mem_size r i))
  = truncate (m2s_data i) data_width.
Proof.
  intros Hne Hwe. rewrite Mem_sync_adr_reg.
  unfold Mem.sync. cbn [Mem.storage].
  rewrite Mem_ports_we_bit, Hwe. cbn [Z.b2z truthy Z.eqb negb].
  rewrite array_eval_assign by assumption.
  unfold Mem.mem_ports_dat_w. apply truncate_idem.
Qed.

(** Without a write the words stay. *)
Lemma Mem_sync_hold (r : Mem.Regs) (i : M2S) :
  Z.testbit (m2s_we i) 0 = false ->
  Mem.storage (Mem.sync data_width mem_size r i) = Mem.storage r.
Proof.
  intros Hwe. unfold Mem.sync. cbn [Mem.storage].
  now rewrite Mem_ports_we_bit, Hwe.
Qed.

(** From a simulation in which no write is on the bus, [write] takes two
    polls and returns the word it wrote, and the [read] that follows
    returns it again, as long as the word fits the data signal of the
    [Master]. *)
Lemma write_read_round_trip (adr dat : Z) (s : Sim) :
  Mem.storage (Master.slave_regs s) <> [] ->
  Z.testbit (m2s_we (Master.cur s)) 0 = false ->
  0 <= adr < mem_size ->
  0 <= dat < 2 ^ data_width ->
  dat < 2 ^ mem_size ->
  exists s' s'',
    Master.write mem_size adr dat s = Master.Return (dat, 0) s' /\
    Master.read mem_size adr s' = Master.Return (dat, 0) s''.
Proof.
  intros Hne Hwe Ha Hd Hd'.
  destruct (address_in_range adr Ha) as [Ha1 Ha2].
  assert (Hdm : truncate dat mem_size = dat) by (apply truncate_small; lia).
  assert (Hdd : truncate dat data_width = dat) by (apply truncate_small; lia).
  destruct (write_returns adr dat s)
    as (s' & Hret & Hdone & Hs').
  set (s1 := Master.write_first_poll mem_size adr dat s) in *.
  assert (H1 : Master.poll_done mem_size s1 = false).
  { rewrite dut_poll_done. subst s1.
    cbn [Master.write_first_poll Master.slave_regs Master.cur m2s_we m2s_addr
         Master.nbits resp_sync R Mem_responder].
    rewrite Mem_sync_ack_we. cbn [Mem_connect m2s_we Mem.nbits].
    rewrite !testbit_truncate_default, Hwe, Ha1, Ha2.
    change (Z.testbit 1 0) with true. cbn [negb Z.b2z Z.testbit].
    now rewrite andb_false_r. }
  destruct Hs' as [-> | [_ ->]]; [congruence |].
  exists (Master.tick s1).
  destruct (read_returns adr (Master.tick s1))
    as (s'' & Hret' & Hdone' & Hs'').
  set (r1 := Master.read_first_poll mem_size adr (Master.tick s1)) in *.
  assert (Hv : Master.s2m_data mem_size (Master.tick s1) = dat).
  { rewrite dut_s2m_data. subst s1.
    cbn [Master.tick Master.write_first_poll Master.slave_regs Master.cur
         Master.nbits resp_sync R Mem_responder].
    rewrite Mem_sync_write_read.
    - cbn [Mem_connect m2s_data Mem.nbits].
      now rewrite Hdm, !Hdd, Hdm.
    - now apply Mem_sync_storage_nonempty.
    - cbn [Mem_connect m2s_we Mem.nbits]. now rewrite !testbit_truncate_default. }
  assert (He : Master.s2m_error mem_size (Master.tick s1) = 0).
  { rewrite dut_s2m_error. subst s1.
    cbn [Master.tick Master.write_first_poll Master.cur Master.pend m2s_addr Master.nbits].
    now rewrite Ha1, Ha2. }
  assert (Hr1 : Master.poll_done mem_size r1 = true).
  { rewrite dut_poll_done. subst r1 s1.
    cbn [Master.read_first_poll Master.tick Master.write_first_poll Master.slave_regs
         Master.cur Master.pend m2s_we m2s_addr Master.nbits resp_sync R Mem_responder].
    rewrite Mem_sync_addr_new. cbn [Mem_connect m2s_addr Mem.nbits].
    rewrite Ha1, truncate_idem, Z.eqb_refl.
    change (Z.testbit (truncate 0 nbits_default) 0) with false. reflexivity. }
  assert (Hv' : Master.s2m_data mem_size r1 = dat).
  { transitivity (Master.s2m_data mem_size (Master.tick s1)); [| exact Hv].
    rewrite !dut_s2m_data. subst r1.
    cbn [Master.read_first_poll Master.slave_regs resp_sync R Mem_responder].
    rewrite Mem_sync_hold, Mem_sync_adr_reg.
    - subst s1.
      cbn [Master.tick Master.write_first_poll Master.slave_regs Master.cur
           Master.pend resp_sync R Mem_responder].
      rewrite Mem_sync_adr_reg. reflexivity.
    - subst s1. cbn [Master.tick Master.write_first_poll Master.cur Master.pend
                     Mem_connect m2s_we Mem.nbits Master.nbits].
      now rewrite testbit_truncate_default. }
  assert (He' : Master.s2m_error mem_size r1 = 0).
  { rewrite dut_s2m_error. subst r1.
    cbn [Master.read_first_poll Master.cur m2s_addr Master.nbits].
    now rewrite Ha1, Ha2. }
  destruct Hs'' as [-> | [Hf _]]; [| congruence].
  exists r1. rewrite Hret, Hret', Hv, He, Hv', He'. auto.
Qed.

End MasterMem.

(** C9.  With the [Mem] of the repository as the slave, and whatever the
    simulation is when the routine is called, [write] and [read] return: the
    loop sees [s2m_ack] or [s2m_error] at its first or at its second poll,
    at most two edges after the call, so [assert timeout < 20] never
    fails. *)
Theorem timeout_unreachable_with_Mem
    (mem_size data_width : Z) (init : list Z) (adr dat : Z) (s : Master.Sim) :
  1 <= mem_size ->
  (exists value error s',
     dut_write mem_size data_width init adr dat s = Master.Return (value, error) s' /\
     Master.poll_done mem_size (slave := Mem_responder data_width mem_size init) s' = true /\
     (Master.now s' <= Master.now s + 2)%nat) /\
  (exists value error s',
     dut_read mem_size data_width init adr s = Master.Return (value, error) s' /\
     Master.poll_done mem_size (slave := Mem_responder data_width mem_size init) s' = true /\
     (Master.now s' <= Master.now s + 2)%nat).
Proof.
  intros _. split.
  - destruct (write_returns mem_size data_width init adr dat s) as (s' & Hret & Hdone & Hs').
    eexists _, _, s'. split; [exact Hret |]. split; [exact Hdone |].
    destruct Hs' as [-> | [_ ->]]; cbn; lia.
  - destruct (read_returns mem_size data_width init adr s) as (s' & Hret & Hdone & Hs').
    eexists _, _, s'. split; [exact Hret |]. split; [exact Hdone |].
    destruct Hs' as [-> | [_ ->]]; cbn; lia.
Qed.

Lemma timeout_unreachable_with_Mem_witness :
  1 <= 10 /\
  (exists value error s',
     dut_write 10 8 [] 3 42 (dut_reset 10 8 []) = Master.Return (value, error) s') /\
  (exists value error s',
     dut_read 10 8 [] 3 (dut_reset 10 8 []) = Master.Return (value, error) s').
Proof.
  assert (H : 1 <= 10) by lia.
  split; [exact H |].
  destruct (timeout_unreachable_with_Mem 10 8 [] 3 42 (dut_reset 10 8 []) H)
    as [(v & e & s' & Hw & _) (v' & e' & s'' & Hr & _)].
  split; eauto.
Defined.

(** C2.  In the default configuration ([mem_size = 10], [data_width = 8]),
    [read(addr)] returns with its error component [1] for every address
    [10 <= addr < 2^8], whatever the simulation is when it is called. *)
Theorem read_out_of_range_reports_error
    (init : list Z) (addr : Z) (s : Master.Sim) :
  10 <= addr < 2 ^ 8 ->
  exists value s', dut_read 10 8 init addr s = Master.Return (value, 1) s'.
Proof.
  intros Haddr.
  destruct (read_error 10 8 init addr s) as (value & s' & Hret & _).
  - change (2 ^ 8) with 256 in Haddr.
    rewrite (truncate_small addr 10) by (change (2 ^ 10) with 1024; lia).
    rewrite (truncate_small addr 8) by (change (2 ^ 8) with 256; lia).
    lia.
  - eauto.
Qed.

Lemma read_out_of_range_reports_error_witness :
  10 <= 15 < 2 ^ 8 /\
  exists value s', dut_read 10 8 [] 15 (dut_reset 10 8 []) = Master.Return (value, 1) s'.
Proof.
  assert (H : 10 <= 15 < 2 ^ 8) by (cbn; lia).
  split; [exact H |].
  exact (read_out_of_range_reports_error [] 15 (dut_reset 10 8 []) H).
Defined.

(** The round trip of [write_read_round_trip], for the [Master] that the
    regression builds. *)
Lemma dut_write_read_round_trip
    (mem_size data_width : Z) (init : list Z) (adr dat : Z) (s : Master.Sim) :
  Mem.storage (Master.slave_regs s) <> [] ->
  Z.testbit (m2s_we (Master.cur s)) 0 = false ->
  0 <= adr < mem_size ->
  0 <= dat < 2 ^ data_width ->
  dat < 2 ^ mem_size ->
  exists s' s'',
    dut_write mem_size data_width init adr dat s = Master.Return (dat, 0) s' /\
    dut_read mem_size data_width init adr s' = Master.Return (dat, 0) s''.
Proof. apply write_read_round_trip. Qed.

(** The scenario of the specification: [write(3, 42)], [read(3)],
    [read(15)] in the default configuration, from reset. *)
Example concrete_scenario :
  exists s1 s2 s3,
    dut_write 10 8 [] 3 42 (dut_reset 10 8 []) = Master.Return (42, 0) s1 /\
    dut_read 10 8 [] 3 s1 = Master.Return (42, 0) s2 /\
    dut_read 10 8 [] 15 s2 = Master.Return (42, 1) s3.
Proof. do 3 eexists. repeat split; vm_compute; reflexivity. Qed.

(** C1.  The round trip fails where a word of [data_width] bits does not fit
    the data signals of [Master], which are declared [mem_size] bits wide:
    with [mem_size = 4] and [data_width = 8], [write(0, 255)] on a fresh
    [Master] returns [(15, 0)], not [(255, 0)], and the [read(0)] that follows
    returns [(15, 0)] too. *)
Theorem round_trip_truncates_to_mem_size_bits :
  exists s1 s2,
    dut_write 4 8 [] 0 255 (dut_reset 4 8 []) = Master.Return (15, 0) s1 /\
    dut_read 4 8 [] 0 s1 = Master.Return (15, 0) s2.
Proof. do 2 eexists. split; vm_compute; reflexivity. Qed.

(** In the default configuration too a [write] can return another word
    than the one it wrote: after [write(15, 77)], which returns on the error
    flag with [m2s_we] still on the bus, [write(3, 42)] is acknowledged at
    its first poll by the registered [ack_we] of the first write and returns
    the word that one stored. *)
Example write_after_out_of_range_write :
  exists s1 s2,
    dut_write 10 8 [] 15 77 (dut_reset 10 8 []) = Master.Return (0, 1) s1 /\
    dut_write 10 8 [] 3 42 s1 = Master.Return (77, 0) s2.
Proof. do 2 eexists. split; vm_compute; reflexivity. Qed.

(** C10.  The address and data signals of [Mem] are [data_width] bits wide,
    those of [Master] are [mem_size] bits wide: 10 bits, not 8, in the
    default configuration.  So [Master] holds the address 256, which [Mem]
    receives as 0: [read(256)] returns word 0 without error. *)
Theorem Master_signals_are_mem_size_bits_wide :
  (forall mem_size data_width : Z,
     Mem.nbits data_width Mem.io_m2s_addr = data_width /\
     Mem.nbits data_width Mem.io_m2s_data = data_width /\
     Mem.nbits data_width Mem.io_s2m_data = data_width /\
     Master.nbits mem_size Master.io_m2s_addr = mem_size /\
     Master.nbits mem_size Master.io_m2s_data = mem_size /\
     Master.nbits mem_size Master.io_s2m_data = mem_size) /\
  Master.nbits 10 Master.io_m2s_addr <> 8 /\
  Master.nbits 10 Master.io_m2s_data <> 8 /\
  exists s', dut_read 10 8 [] 256 (dut_reset 10 8 []) = Master.Return (0, 0) s'.
Proof.
  split; [intros; repeat split |].
  split; [discriminate |]. split; [discriminate |].
  eexists. vm_compute. reflexivity.
Qed.

(** ** What [write] and [read] do to the memory *)

Lemma bus_idle_spec {St : Type} (s : @Master.Sim St) :
  bus_idle s = true <->
  Z.testbit (m2s_we (Master.cur s)) 0 = false /\
  Z.testbit (m2s_we (Master.pend s)) 0 = false.
Proof.
  unfold bus_idle.
  destruct (Z.testbit (m2s_we (Master.cur s)) 0),
    (Z.testbit (m2s_we (Master.pend s)) 0); cbn; intuition congruence.
Qed.

Section DutOps.

Variables (mem_size data_width : Z) (init : list Z).

#[local] Hint Extern 0 (Responder Mem.Regs) =>
  exact (Mem_responder data_width mem_size init) : typeclass_instances.

(** The index of the word that the address [adr] given to a routine
    selects: [adr] goes through the address signals of [Master], of [Mem]
    and of the memory port. *)
Let key (adr : Z) : Z :=
  truncate (truncate (truncate adr mem_size) data_width) (Mem.adr_nbits mem_size).

(** From an idle bus, [write] to an address that [Mem] takes as in range
    stores the word, returns what [Master] reads back of it with the error
    component [0], takes two edges, and leaves the bus idle. *)
Lemma write_in_range (adr dat : Z) (s : Master.Sim) :
  Mem.storage (Master.slave_regs s) <> [] ->
  bus_idle s = true ->
  truncate (truncate adr mem_size) data_width < mem_size ->
  let word := truncate (truncate dat mem_size) data_width in
  exists s',
    dut_write mem_size data_width init adr dat s
    = Master.Return (truncate word mem_size, 0) s' /\
    bus_idle s' = true /\
    Mem.storage (Master.slave_regs s')
    = array_assign (Mem.storage (Master.slave_regs s)) (key adr) word /\
    Master.now s' = (Master.now s + 2)%nat.
Proof.
  intros Hne Hidle Ha word. apply bus_idle_spec in Hidle as [Hcur Hpend].
  unfold dut_write.
  destruct (write_returns mem_size data_width init adr dat s)
    as (s' & Hret & Hdone & Hs').
  set (s1 := Master.write_first_poll mem_size adr dat s) in *.
  assert (He : (mem_size <=? truncate (truncate adr mem_size) data_width) = false)
    by now apply Z.leb_gt.
  assert (H1 : Master.poll_done mem_size s1 = false).
  { rewrite (dut_poll_done mem_size data_width init). subst s1.
    cbn [Master.write_first_poll Master.slave_regs Master.cur m2s_we m2s_addr
         Master.nbits resp_sync Mem_responder].
    rewrite Mem_sync_ack_we. cbn [Mem_connect m2s_we Mem.nbits].
    rewrite !testbit_truncate_default, Hcur, He.
    change (Z.testbit 1 0) with true. cbn [negb Z.b2z Z.testbit].
    now rewrite andb_false_r. }
  destruct Hs' as [-> | [_ ->]]; [congruence |].
  exists (Master.tick s1). rewrite Hret.
  assert (Hst1 : Mem.storage (Master.slave_regs s1) = Mem.storage (Master.slave_regs s)).
  { subst s1. cbn [Master.write_first_poll Master.slave_regs resp_sync Mem_responder].
    apply Mem_sync_hold. cbn [Mem_connect m2s_we Mem.nbits].
    now rewrite testbit_truncate_default. }
  assert (Hwe1 : Z.testbit (m2s_we (Mem_connect data_width (Master.cur s1))) 0 = true).
  { subst s1. cbn [Master.write_first_poll Master.cur Mem_connect m2s_we Mem.nbits
                   Master.nbits].
    now rewrite !testbit_truncate_default. }
  split; [f_equal; f_equal |]; [| | split; [| split]].
  - rewrite (dut_s2m_data mem_size data_width init).
    cbn [Master.tick Master.slave_regs resp_sync Mem_responder].
    rewrite Mem_sync_write_read; [| rewrite Hst1; exact Hne | exact Hwe1].
    subst s1 word.
    cbn [Master.write_first_poll Master.cur Mem_connect m2s_data Mem.nbits Master.nbits].
    now rewrite !truncate_idem.
  - rewrite (dut_s2m_error mem_size data_width init). subst s1.
    cbn [Master.tick Master.write_first_poll Master.cur Master.pend m2s_addr Master.nbits].
    now rewrite He.
  - apply bus_idle_spec. subst s1.
    cbn [Master.tick Master.write_first_poll Master.cur Master.pend m2s_we Master.nbits].
    split; reflexivity.
  - cbn [Master.tick Master.slave_regs resp_sync Mem_responder].
    unfold Mem.sync at 1. cbn [Mem.storage].
    rewrite Mem_ports_we_bit, Hwe1. cbn [Z.b2z truthy Z.eqb negb].
    rewrite Hst1. subst s1 word key.
    cbn [Master.write_first_poll Master.cur Mem_connect m2s_data m2s_addr Mem.nbits
         Master.nbits].
    unfold Mem.mem_ports_adr, Mem.mem_ports_dat_w.
    cbn [Mem_connect m2s_addr m2s_data Mem.nbits].
    now rewrite !truncate_idem.
  - subst s1. cbn [Master.tick Master.write_first_poll Master.now]. lia.
Qed.

(** From an idle bus, [read] of an address that [Mem] takes as in range
    returns what [Master] reads of the word, with the error component [0],
    after one or two edges; the memory is as before and the bus idle. *)
Lemma read_in_range (adr : Z) (s : Master.Sim) :
  bus_idle s = true ->
  truncate (truncate adr mem_size) data_width < mem_size ->
  let word := array_eval (Mem.storage (Master.slave_regs s)) (key adr) in
  exists s',
    dut_read mem_size data_width init adr s
    = Master.Return (truncate (truncate word data_width) mem_size, 0) s' /\
    bus_idle s' = true /\
    Mem.storage (Master.slave_regs s') = Mem.storage (Master.slave_regs s) /\
    (Master.now s < Master.now s' <= Master.now s + 2)%nat.
Proof.
  intros Hidle Ha word. apply bus_idle_spec in Hidle as [Hcur Hpend].
  unfold dut_read.
  destruct (read_returns mem_size data_width init adr s)
    as (s' & Hret & Hdone & Hs').
  set (r1 := Master.read_first_poll mem_size adr s) in *.
  assert (He : (mem_size <=? truncate (truncate adr mem_size) data_width) = false)
    by now apply Z.leb_gt.
  assert (Hst1 : Mem.storage (Master.slave_regs r1) = Mem.storage (Master.slave_regs s)).
  { subst r1. cbn [Master.read_first_poll Master.slave_regs resp_sync Mem_responder].
    apply Mem_sync_hold. cbn [Mem_connect m2s_we Mem.nbits].
    now rewrite testbit_truncate_default. }
  assert (Hcur1 : Master.cur r1 = Master.pend r1) by reflexivity.
  assert (Hwe1 : Z.testbit (m2s_we (Master.cur r1)) 0 = false) by exact Hpend.
  assert (Ha1 : m2s_addr (Master.cur r1) = truncate adr mem_size) by reflexivity.
  assert (Herr : forall s0 : @Master.Sim Mem.Regs,
             m2s_addr (Master.cur s0) = truncate adr mem_size ->
             Master.s2m_error mem_size s0 = 0).
  { intros s0 H0. rewrite (dut_s2m_error mem_size data_width init), H0, He.
    reflexivity. }
  rewrite Hret.
  destruct Hs' as [-> | [_ ->]].
  - (* acknowledged at the first poll: the address was on the bus already *)
    exists r1.
    assert (Hkey : Mem.adr_reg (Master.slave_regs r1) = key adr).
    { rewrite (dut_poll_done mem_size data_width init), Ha1, He, Hwe1 in Hdone.
      subst r1.
      cbn [Master.read_first_poll Master.slave_regs resp_sync Mem_responder] in *.
      rewrite Mem_sync_ack_we, Mem_sync_addr_new in Hdone.
      cbn [Mem_connect m2s_we m2s_addr Mem.nbits] in Hdone.
      rewrite testbit_truncate_default, Hcur, truncate_idem in Hdone.
      cbn [Z.b2z Z.testbit negb] in Hdone.
      rewrite andb_true_r, !orb_false_r in Hdone. apply Z.eqb_eq in Hdone.
      rewrite Mem_sync_adr_reg. unfold Mem.mem_ports_adr, key.
      cbn [Mem_connect m2s_addr Mem.nbits]. now rewrite Hdone. }
    split; [f_equal; f_equal |]; [| | split; [| split]].
    + rewrite (dut_s2m_data mem_size data_width init), Hst1, Hkey. reflexivity.
    + now apply Herr.
    + apply bus_idle_spec. split; [exact Hwe1 | exact Hpend].
    + exact Hst1.
    + subst r1. cbn [Master.read_first_poll Master.now]. lia.
  - (* acknowledged at the second poll *)
    exists (Master.tick r1).
    assert (Hst2 : Mem.storage (Master.slave_regs (Master.tick r1))
                   = Mem.storage (Master.slave_regs s)).
    { rewrite <- Hst1. cbn [Master.tick Master.slave_regs resp_sync Mem_responder].
      apply Mem_sync_hold. cbn [Mem_connect m2s_we Mem.nbits].
      now rewrite testbit_truncate_default. }
    assert (Hkey : Mem.adr_reg (Master.slave_regs (Master.tick r1)) = key adr).
    { cbn [Master.tick Master.slave_regs resp_sync Mem_responder].
      rewrite Mem_sync_adr_reg. unfold Mem.mem_ports_adr, key.
      cbn [Mem_connect m2s_addr Mem.nbits]. now rewrite Ha1. }
    split; [f_equal; f_equal |]; [| | split; [| split]].
    + rewrite (dut_s2m_data mem_size data_width init), Hst2, Hkey. reflexivity.
    + apply Herr. reflexivity.
    + apply bus_idle_spec. split; exact Hpend.
    + exact Hst2.
    + subst r1. cbn [Master.tick Master.read_first_poll Master.now]. lia.
Qed.

(** X5.  [read] of an address that [Mem] takes as out of range returns at its
    first poll, one edge after the call, with the error component [1]; from
    an idle bus the memory is as before and the bus stays idle. *)
Lemma read_out_of_range (adr : Z) (s : Master.Sim) :
  bus_idle s = true ->
  mem_size <= truncate (truncate adr mem_size) data_width ->
  exists value s',
    dut_read mem_size data_width init adr s = Master.Return (value, 1) s' /\
    bus_idle s' = true /\
    Mem.storage (Master.slave_regs s') = Mem.storage (Master.slave_regs s) /\
    Master.now s' = S (Master.now s).
Proof.
  intros Hidle Ha. apply bus_idle_spec in Hidle as [Hcur Hpend].
  destruct (read_error mem_size data_width init adr s Ha) as (value & s' & Hret & ->).
  exists value, (Master.read_first_poll mem_size adr s).
  split; [exact Hret |]. split; [| split].
  - apply bus_idle_spec. split; exact Hpend.
  - cbn [Master.read_first_poll Master.slave_regs resp_sync Mem_responder].
    apply Mem_sync_hold. cbn [Mem_connect m2s_we Mem.nbits].
    now rewrite testbit_truncate_default.
  - reflexivity.
Qed.

(** [write] to an address that [Mem] takes as out of range returns at its
    first poll, one edge after the call, with the error component [1], and
    with the request still on the bus: [m2s_we] is [1]. *)
Lemma write_out_of_range (adr dat : Z) (s : Master.Sim) :
  mem_size <= truncate (truncate adr mem_size) data_width ->
  exists value,
    dut_write mem_size data_width init adr dat s
    = Master.Return (value, 1) (Master.write_first_poll mem_size adr dat s) /\
    bus_idle (Master.write_first_poll mem_size adr dat s) = false.
Proof.
  intros Ha. unfold dut_write.
  destruct (write_returns mem_size data_width init adr dat s)
    as (s' & Hret & Hdone & Hs').
  set (s1 := Master.write_first_poll mem_size adr dat s) in *.
  assert (H1 : Master.s2m_error mem_size s1 = 1).
  { rewrite (dut_s2m_error mem_size data_width init). subst s1.
    cbn [Master.write_first_poll Master.cur m2s_addr Master.nbits].
    destruct (Z.leb_spec mem_size (truncate (truncate adr mem_size) data_width));
      [reflexivity | lia]. }
  assert (Hd : Master.poll_done mem_size s1 = true).
  { unfold Master.poll_done. rewrite H1. apply orb_true_r. }
  destruct Hs' as [-> | [Hf _]]; [| congruence].
  rewrite H1 in Hret. eexists. split; [exact Hret |]. reflexivity.
Qed.

(** An address below [mem_size] that also fits [data_width] bits selects
    the word of its own index. *)
Lemma key_in_range (storage : list Z) (adr : Z) :
  0 <= adr < mem_size -> adr < 2 ^ data_width ->
  (Z.to_nat adr < length storage)%nat ->
  key adr = adr /\ array_idx storage (key adr) = Z.to_nat adr.
Proof.
  intros Ha Hd Hlen.
  assert (Hk : key adr = adr).
  { unfold key. destruct (address_in_range mem_size data_width adr Ha) as [-> _].
    rewrite (truncate_small adr data_width) by lia.
    apply truncate_small. pose proof (address_fits_port mem_size adr Ha). lia. }
  split; [exact Hk |]. rewrite Hk. unfold array_idx. lia.
Qed.

(** The memory as a list: from an idle bus, [write(adr, dat)] with [adr]
    below [mem_size] and [dat] a word that fits both widths returns
    [(dat, 0)] and replaces the word of index [adr], and no other. *)
Lemma write_stores (adr dat : Z) (s : Master.Sim) :
  bus_idle s = true ->
  0 <= adr < mem_size -> adr < 2 ^ data_width ->
  (Z.to_nat adr < length (Mem.storage (Master.slave_regs s)))%nat ->
  0 <= dat < 2 ^ data_width -> dat < 2 ^ mem_size ->
  exists s',
    dut_write mem_size data_width init adr dat s = Master.Return (dat, 0) s' /\
    bus_idle s' = true /\
    Mem.storage (Master.slave_regs s')
    = <[Z.to_nat adr := dat]> (Mem.storage (Master.slave_regs s)) /\
    Master.now s' = (Master.now s + 2)%nat.
Proof.
  intros Hidle Ha Had Hlen Hd Hdm.
  assert (Hne : Mem.storage (Master.slave_regs s) <> []).
  { intros He. rewrite He in Hlen. cbn in Hlen. lia. }
  destruct (address_in_range mem_size data_width adr Ha) as [Ha1 Ha2].
  destruct (key_in_range _ adr Ha Had Hlen) as [_ Hidx].
  destruct (write_in_range adr dat s Hne Hidle) as (s' & Hret & Hi & Hst & Hnow).
  { rewrite Ha1. now apply Z.leb_gt. }
  exists s'. cbv zeta in Hret, Hst.
  rewrite (truncate_small dat mem_size), (truncate_small dat data_width),
    (truncate_small dat mem_size) in Hret by lia.
  rewrite (truncate_small dat mem_size), (truncate_small dat data_width) in Hst by lia.
  unfold array_assign in Hst. rewrite Hidx in Hst. auto.
Qed.

(** From an idle bus, [read(adr)] with [adr] below [mem_size] returns the
    word of index [adr] with the error component [0], and leaves the memory
    as it is. *)
Lemma read_loads (adr word : Z) (s : Master.Sim) :
  bus_idle s = true ->
  0 <= adr < mem_size -> adr < 2 ^ data_width ->
  Mem.storage (Master.slave_regs s) !! Z.to_nat adr = Some word ->
  0 <= word < 2 ^ data_width -> word < 2 ^ mem_size ->
  exists s',
    dut_read mem_size data_width init adr s = Master.Return (word, 0) s' /\
    bus_idle s' = true /\
    Mem.storage (Master.slave_regs s') = Mem.storage (Master.slave_regs s) /\
    (Master.now s < Master.now s' <= Master.now s + 2)%nat.
Proof.
  intros Hidle Ha Had Hw Hwd Hwm.
  assert (Hlen : (Z.to_nat adr < length (Mem.storage (Master.slave_regs s)))%nat)
    by (eapply lookup_lt_Some; exact Hw).
  destruct (address_in_range mem_size data_width adr Ha) as [Ha1 Ha2].
  destruct (key_in_range _ adr Ha Had Hlen) as [_ Hidx].
  destruct (read_in_range adr s Hidle) as (s' & Hret & Hrest).
  { rewrite Ha1. now apply Z.leb_gt. }
  exists s'. cbv zeta in Hret. unfold array_eval in Hret.
  rewrite Hidx, Hw in Hret. cbn [default from_option id] in Hret.
  rewrite (truncate_small word data_width), (truncate_small word mem_size) in Hret by lia.
  auto.
Qed.

(** X6.  A [write] that follows a [write] to an out-of-range address is
    acknowledged at its first poll by the registered write enable of the
    failed one, and returns the word of the failed one, which the memory
    stored at the clamped index, instead of its own. *)
Lemma write_after_failed_write (adr dat adr' dat' : Z) (s : Master.Sim) :
  Mem.storage (Master.slave_regs s) <> [] ->
  mem_size <= truncate (truncate adr mem_size) data_width ->
  truncate (truncate adr' mem_size) data_width < mem_size ->
  exists value s1 s2,
    dut_write mem_size data_width init adr dat s = Master.Return (value, 1) s1 /\
    dut_write mem_size data_width init adr' dat' s1
    = Master.Return
        (truncate (truncate (truncate dat mem_size) data_width) mem_size, 0) s2 /\
    Master.now s2 = (Master.now s + 2)%nat /\
    bus_idle s2 = false.
Proof.
  intros Hne Ha Ha'.
  destruct (write_out_of_range adr dat s Ha) as (value & Hret1 & _).
  set (s1 := Master.write_first_poll mem_size adr dat s) in *.
  exists value, s1, (Master.write_first_poll mem_size adr' dat' s1).
  split; [exact Hret1 |].
  unfold dut_write.
  destruct (write_returns mem_size data_width init adr' dat' s1)
    as (s' & Hret & Hdone & Hs').
  set (s2 := Master.write_first_poll mem_size adr' dat' s1) in *.
  assert (Hwe1 : Z.testbit (m2s_we (Mem_connect data_width (Master.cur s1))) 0 = true).
  { subst s1. cbn [Master.write_first_poll Master.cur Mem_connect m2s_we Mem.nbits
                   Master.nbits].
    now rewrite !testbit_truncate_default. }
  assert (He : (mem_size <=? truncate (truncate adr' mem_size) data_width) = false)
    by now apply Z.leb_gt.
  assert (H2 : Master.poll_done mem_size s2 = true).
  { rewrite (dut_poll_done mem_size data_width init). subst s2.
    cbn [Master.write_first_poll Master.slave_regs resp_sync Mem_responder].
    rewrite Mem_sync_ack_we, Hwe1. cbn [Z.b2z Z.testbit].
    now rewrite orb_true_r. }
  destruct Hs' as [-> | [Hf _]]; [| congruence].
  rewrite Hret. split; [| split; [| reflexivity]].
  - f_equal. f_equal.
    + rewrite (dut_s2m_data mem_size data_width init). subst s2.
      cbn [Master.write_first_poll Master.slave_regs resp_sync Mem_responder].
      rewrite Mem_sync_write_read; [| | exact Hwe1].
      * subst s1. cbn [Master.write_first_poll Master.cur Mem_connect m2s_data
                       Mem.nbits Master.nbits].
        now rewrite !truncate_idem.
      * subst s1. cbn [Master.write_first_poll Master.slave_regs resp_sync
                       Mem_responder].
        now apply Mem_sync_storage_nonempty.
    + rewrite (dut_s2m_error mem_size data_width init). subst s2.
      cbn [Master.write_first_poll Master.cur m2s_addr Master.nbits].
      now rewrite He.
  - subst s2 s1. cbn [Master.write_first_poll Master.now]. lia.
Qed.

End DutOps.

(** ** The dictionary of the tests *)

Section Dict.

Import Tests.

Lemma dict_update_elem_of (a w k v : Z) (d : dict) :
  (k, v) ∈ dict_update a w d -> (k, v) = (a, w) \/ (k, v) ∈ d.
Proof.
  induction d as [| [k' v'] d IH]; cbn [dict_update].
  - intros H. apply list_elem_of_singleton in H. now left.
  - destruct (Z.eqb_spec k' a) as [-> | Hne]; intros H;
      apply elem_of_cons in H as [H | H].
    + now left.
    + right. now apply elem_of_cons; right.
    + right. apply elem_of_cons. now left.
    + destruct (IH H) as [? | ?]; [now left |].
      right. now apply elem_of_cons; right.
Qed.

Lemma dict_update_keys (a w x : Z) (d : dict) :
  x ∈ (dict_update a w d).*1 <-> x = a \/ x ∈ d.*1.
Proof.
  induction d as [| [k' v'] d IH]; cbn [dict_update].
  - cbn. rewrite list_elem_of_singleton. rewrite elem_of_nil. tauto.
  - destruct (Z.eqb_spec k' a) as [-> | Hne]; cbn [fmap list_fmap fst];
      rewrite !elem_of_cons.
    + tauto.
    + cbn [fmap] in IH. rewrite IH. tauto.
Qed.

(** A dictionary has each key once. *)
Lemma dict_update_NoDup (a w : Z) (d : dict) :
  NoDup d.*1 -> NoDup (dict_update a w d).*1.
Proof.
  induction d as [| [k' v'] d IH]; cbn [dict_update]; intros Hnd.
  - cbn. apply NoDup_singleton.
  - cbn [fmap list_fmap fst] in Hnd. apply NoDup_cons in Hnd as [Hk Hnd].
    destruct (Z.eqb_spec k' a) as [-> | Hne]; cbn [fmap list_fmap fst].
    + apply NoDup_cons. split; assumption.
    + apply NoDup_cons. split; [| now apply IH].
      intros Hin. apply (dict_update_keys a w k' d) in Hin as [? | ?]; congruence.
Qed.

(** After [update], a key has the new value if it is the updated key, and
    the value it had otherwise. *)
Lemma dict_update_items (a w k v : Z) (d : dict) :
  NoDup d.*1 ->
  (k, v) ∈ dict_update a w d ->
  k = a /\ v = w \/ k <> a /\ (k, v) ∈ d.
Proof.
  induction d as [| [k' v'] d IH]; cbn [dict_update]; intros Hnd H.
  - apply list_elem_of_singleton in H. injection H as -> ->. now left.
  - cbn [fmap list_fmap fst] in Hnd. apply NoDup_cons in Hnd as [Hk Hnd].
    destruct (Z.eqb_spec k' a) as [-> | Hne];
      apply elem_of_cons in H as [H | H].
    + injection H as -> ->. now left.
    + right. split.
      * intros ->. apply Hk. apply list_elem_of_fmap. now exists (a, v).
      * apply elem_of_cons. now right.
    + injection H as -> ->. right. split; [assumption |].
      apply elem_of_cons. now left.
    + destruct (IH Hnd H) as [? | [? ?]]; [now left |].
      right. split; [assumption |]. apply elem_of_cons. now right.
Qed.

Lemma dict_get_update (a w k : Z) (d : dict) :
  dict_get k (dict_update a w d) = if a =? k then Some w else dict_get k d.
Proof.
  induction d as [| [k' v'] d IH]; cbn [dict_update dict_get].
  - reflexivity.
  - destruct (Z.eqb_spec k' a) as [-> | Hne]; cbn [dict_get].
    + destruct (Z.eqb_spec a k); reflexivity.
    + rewrite IH. destruct (Z.eqb_spec k' k) as [-> | ?]; [| reflexivity].
      destruct (Z.eqb_spec a k); [congruence | reflexivity].
Qed.

End Dict.

(** ** The regression tests on the [Master] with its [Mem] *)

Section TestFacts.

Import Tests.

Variables (mem_size data_width : Z) (init_mem_values : option (list Z)).
Variables (rand_word rand_addr : nat -> Z).

#[local] Hint Extern 0 (Responder Mem.Regs) =>
  exact (Mem_responder data_width mem_size (dut_init init_mem_values))
  : typeclass_instances.

(** The configurations in which the design can be built ([Signal(max=1)]
    and [Signal(0)] raise) and a word and an address go through the signals
    of [Master] and of [Mem] unchanged. *)
Hypothesis Hsize : 2 <= mem_size.
Hypothesis Hwidth : 1 <= data_width <= mem_size.
Hypothesis Hdepth : mem_size <= 2 ^ data_width.

(** The draws are in the ranges asked of [randrange]. *)
Hypothesis Hword : forall i, 0 <= rand_word i < 2 ^ data_width.
Hypothesis Haddr : forall i, 0 <= rand_addr i < mem_size.

(** What the write loop keeps: the bus is idle, the memory has its
    [mem_size] words, and every item of [value_written] is a word of the
    memory at its address. *)
Let agrees (d : dict) (s : @Master.Sim Mem.Regs) : Prop :=
  bus_idle s = true /\
  (Z.to_nat mem_size <= length (Mem.storage (Master.slave_regs s)))%nat /\
  NoDup d.*1 /\
  forall k v, (k, v) ∈ d ->
    0 <= k < mem_size /\ 0 <= v < 2 ^ data_width /\
    Mem.storage (Master.slave_regs s) !! Z.to_nat k = Some v.

Lemma word_fits_Master (v : Z) : 0 <= v < 2 ^ data_width -> v < 2 ^ mem_size.
Proof.
  intros Hv. assert (2 ^ data_width <= 2 ^ mem_size)
    by (apply Z.pow_le_mono_r; lia). lia.
Qed.

Lemma tick_idle (s : @Master.Sim Mem.Regs) :
  bus_idle s = true ->
  bus_idle (Master.tick s) = true /\
  Mem.storage (Master.slave_regs (Master.tick s)) = Mem.storage (Master.slave_regs s).
Proof.
  intros Hidle. apply bus_idle_spec in Hidle as [Hcur Hpend]. split.
  - apply bus_idle_spec. split; exact Hpend.
  - cbn [Master.tick Master.slave_regs resp_sync Mem_responder].
    apply Mem_sync_hold. cbn [Mem_connect m2s_we Mem.nbits].
    now rewrite testbit_truncate_default.
Qed.

Lemma storage_reset_length (init : list Z) :
  (Z.to_nat mem_size <= length (Mem.storage_reset mem_size init))%nat.
Proof.
  unfold Mem.storage_reset. rewrite length_app, length_replicate. lia.
Qed.

(** The design is built, and its simulation starts at reset. *)
Lemma fresh_built :
  fresh mem_size data_width init_mem_values
  = Some (dut_reset mem_size data_width (dut_init init_mem_values)).
Proof.
  unfold fresh, dut_build, Mem.build, Signal_nbits, Signal_max.
  destruct (Z.ltb_spec 0 data_width); [| lia].
  destruct (Z.ltb_spec 0 (mem_size - 1)); [| lia].
  destruct (Z.ltb_spec 0 mem_size); [| lia].
  reflexivity.
Qed.

Lemma built_agrees :
  agrees [] (dut_reset mem_size data_width (dut_init init_mem_values)).
Proof.
  split; [reflexivity |]. split; [apply storage_reset_length |].
  split; [apply NoDup_nil_2 |].
  intros k v H. now apply elem_of_nil in H.
Qed.

Lemma write_loop_passes (regress_times : option Z) (turns : list nat) :
  (regress_times = None -> forall i, i ∈ turns -> Z.of_nat i < mem_size) ->
  forall d s, agrees d s ->
    exists d' s',
      write_loop mem_size data_width init_mem_values rand_word rand_addr
        regress_times turns d s = Passed d' s' /\
      agrees d' s' /\
      (regress_times = None ->
       forall k, k ∈ d'.*1 <-> k ∈ d.*1 \/ exists i, i ∈ turns /\ k = Z.of_nat i).
Proof.
  induction turns as [| i turns IH]; intros Hturns d s Hag.
  - exists d, s. split; [reflexivity |]. split; [assumption |].
    intros _ k. split; [now left |]. intros [? | (i & Hi & _)]; [assumption |].
    now apply elem_of_nil in Hi.
  - cbn [write_loop]. unfold randrange.
    destruct (Z.ltb_spec 0 (2 ^ data_width)) as [_ | Hbad];
      [| pose proof (Z.pow_pos_nonneg 2 data_width); lia].
    destruct (Z.ltb_spec 0 mem_size) as [_ | Hbad]; [| lia].
    set (addr := match regress_times with
                 | None => Z.of_nat i
                 | Some _ => rand_addr i
                 end).
    assert (Ha : 0 <= addr < mem_size).
    { subst addr. destruct regress_times as [n |]; [apply Haddr |].
      split; [lia |]. apply Hturns; [reflexivity | apply elem_of_cons; now left]. }
    destruct Hag as (Hidle & Hlen & Hnd & Hitems).
    destruct (write_stores mem_size data_width (dut_init init_mem_values)
                addr (rand_word i) s Hidle Ha ltac:(lia) ltac:(lia) (Hword i)
                (word_fits_Master _ (Hword i)))
      as (s' & Hret & Hidle' & Hst & _).
    rewrite Hret. unfold pair_eqb. cbn [fst snd]. rewrite !Z.eqb_refl. cbn [andb].
    destruct (IH (fun Hn j Hj => Hturns Hn j ltac:(apply elem_of_cons; now right))
                (dict_update addr (rand_word i) d) s')
      as (d' & s'' & Hloop & Hag' & Hkeys).
    { split; [exact Hidle' |]. split; [rewrite Hst, length_insert; exact Hlen |].
      split; [now apply dict_update_NoDup |].
      intros k v Hkv.
      destruct (dict_update_items _ _ _ _ _ Hnd Hkv) as [[-> ->] | [Hne Hin]].
      - split; [exact Ha |]. split; [apply Hword |].
        rewrite Hst. apply list_lookup_insert_eq. lia.
      - destruct (Hitems k v Hin) as (Hk & Hv & Hlook).
        split; [exact Hk |]. split; [exact Hv |].
        rewrite Hst, list_lookup_insert_ne by lia. exact Hlook. }
    exists d', s''. split; [exact Hloop |]. split; [exact Hag' |].
    intros Hn k. rewrite (Hkeys Hn k), dict_update_keys.
    subst addr. rewrite Hn. split.
    + intros [[-> | ?] | (j & Hj & ->)].
      * right. exists i. split; [apply elem_of_cons; now left | reflexivity].
      * now left.
      * right. exists j. split; [apply elem_of_cons; now right | reflexivity].
    + intros [? | (j & Hj & ->)]; [left; now right |].
      apply elem_of_cons in Hj as [-> | Hj]; [left; now left |].
      right. now exists j.
Qed.

Lemma read_loop_passes (items : list (Z * Z)) :
  forall s,
    bus_idle s = true ->
    (forall k v, (k, v) ∈ items ->
       0 <= k < mem_size /\ 0 <= v < 2 ^ data_width /\
       Mem.storage (Master.slave_regs s) !! Z.to_nat k = Some v) ->
    exists s',
      read_loop mem_size data_width init_mem_values items s = Passed tt s' /\
      bus_idle s' = true /\
      Mem.storage (Master.slave_regs s') = Mem.storage (Master.slave_regs s).
Proof.
  induction items as [| [addr value] items IH]; intros s Hidle Hitems.
  - exists s. auto.
  - cbn [read_loop].
    destruct (Hitems addr value ltac:(apply elem_of_cons; now left))
      as (Ha & Hv & Hlook).
    destruct (read_loads mem_size data_width (dut_init init_mem_values)
                addr value s Hidle Ha ltac:(lia) Hlook Hv (word_fits_Master _ Hv))
      as (s1 & Hret & Hidle1 & Hst1 & _).
    rewrite Hret. unfold pair_eqb. cbn [fst snd]. rewrite !Z.eqb_refl. cbn [andb].
    destruct (tick_idle s1 Hidle1) as [Hidle2 Hst2].
    destruct (IH (Master.tick s1) Hidle2) as (s' & Hloop & Hidle' & Hst').
    { intros k v Hkv. rewrite Hst2, Hst1. apply Hitems.
      apply elem_of_cons. now right. }
    exists s'. split; [exact Hloop |]. split; [exact Hidle' |].
    now rewrite Hst', Hst2, Hst1.
Qed.

Lemma fold_dict_update_elem_of (g : nat -> Z) (l : list nat) :
  forall (d0 : dict) (k v : Z),
    (k, v) ∈ fold_left (fun d a => dict_update (Z.of_nat a) (g a) d) l d0 ->
    (k, v) ∈ d0 \/ exists a, a ∈ l /\ k = Z.of_nat a /\ v = g a.
Proof.
  induction l as [| a l IH]; intros d0 k v H; cbn [fold_left] in H.
  - now left.
  - destruct (IH _ _ _ H) as [H0 | (b & Hb & -> & ->)].
    + destruct (dict_update_elem_of _ _ _ _ _ H0) as [Heq | ?]; [| now left].
      injection Heq as -> ->. right. exists a.
      split; [apply elem_of_cons; now left | split; reflexivity].
    + right. exists b. split; [apply elem_of_cons; now right | split; reflexivity].
Qed.

(** The words [test_read_range_width] expects without [value_written] are
    the words the memory is built with. *)
Lemma init_items_agree :
  Forall (fun w => 0 <= w < 2 ^ data_width) (dut_init init_mem_values) ->
  forall k v, (k, v) ∈ read_expected mem_size None init_mem_values ->
    0 <= k < mem_size /\ 0 <= v < 2 ^ data_width /\
    Mem.storage_reset mem_size (dut_init init_mem_values) !! Z.to_nat k = Some v.
Proof.
  intros Hfits k v H. unfold read_expected in H.
  apply fold_dict_update_elem_of in H as [H | (a & Ha & -> & ->)];
    [now apply elem_of_nil in H |].
  apply elem_of_seq in Ha. rewrite Nat2Z.id.
  split; [lia |].
  assert (Hzero : 0 <= 0 < 2 ^ data_width)
    by (pose proof (Z.pow_pos_nonneg 2 data_width); lia).
  unfold Mem.storage_reset, dut_init in *.
  destruct init_mem_values as [l |]; cbn [default from_option id] in *.
  - destruct (Z.ltb_spec (Z.of_nat (length l)) mem_size) as [Hshort | Hlong].
    + destruct (Nat.lt_ge_cases a (length l)) as [Hin | Hout].
      * rewrite !lookup_app_l by assumption.
        destruct (lookup_lt_is_Some_2 l a Hin) as [w Hw]. rewrite Hw.
        split; [| reflexivity].
        eapply (proj1 (Forall_forall _ _) Hfits). eapply list_elem_of_lookup_2; eauto.
      * rewrite !lookup_app_r by assumption.
        rewrite !lookup_replicate_2 by lia. auto.
    + rewrite lookup_app_l by lia.
      destruct (lookup_lt_is_Some_2 l a ltac:(lia)) as [w Hw]. rewrite Hw.
      split; [| reflexivity].
      eapply (proj1 (Forall_forall _ _) Hfits). eapply list_elem_of_lookup_2; eauto.
  - rewrite length_replicate.
    destruct (Z.ltb_spec (Z.of_nat (Z.to_nat mem_size)) mem_size); [lia |].
    cbn [app length]. rewrite !lookup_replicate_2 by lia. auto.
Qed.

(** X10.  The design is built, and [test_write_range_width] passes on its
    fresh simulation, whatever the draws: every write returns the word it
    wrote.  The dictionary it returns has each address once, with the word
    the memory holds there; without [regress_times] its keys are the
    addresses below [mem_size]. *)
Theorem test_write_range_width_passes (regress_times : option Z) :
  exists s0 d s',
    fresh mem_size data_width init_mem_values = Some s0 /\
    test_write_range_width mem_size data_width init_mem_values rand_word rand_addr
      regress_times s0 = Passed d s' /\
    NoDup d.*1 /\
    (forall k v, (k, v) ∈ d ->
       Mem.storage (Master.slave_regs s') !! Z.to_nat k = Some v) /\
    (regress_times = None -> forall k, k ∈ d.*1 <-> 0 <= k < mem_size).
Proof.
  unfold test_write_range_width.
  set (counter := match regress_times with None => mem_size | Some n => n end).
  destruct (write_loop_passes regress_times (seq 0 (Z.to_nat counter)))
    with (d := @nil (Z * Z))
         (s := dut_reset mem_size data_width (dut_init init_mem_values))
    as (d & s' & Hloop & (_ & _ & Hnd & Hitems) & Hkeys).
  - intros Hn i Hi. apply elem_of_seq in Hi. subst counter. rewrite Hn in Hi. lia.
  - apply built_agrees.
  - exists (dut_reset mem_size data_width (dut_init init_mem_values)), d, s'.
    split; [apply fresh_built |]. split; [exact Hloop |]. split; [exact Hnd |].
    split; [intros k v Hkv; now apply (Hitems k v) |].
    intros Hn k. rewrite (Hkeys Hn k). subst counter. rewrite Hn. split.
    + intros [Hin | (i & Hi & ->)]; [now apply elem_of_nil in Hin |].
      apply elem_of_seq in Hi. lia.
    + intros Hk. right. exists (Z.to_nat k). split; [| lia].
      apply elem_of_seq. lia.
Qed.

(** X11.  The design is built, and [test_write_read_range_width] passes on
    its fresh simulation, whatever the draws: every address that was written
    reads back the last word written to it. *)
Theorem test_write_read_range_width_passes (regress_times : option Z) :
  exists s0 s',
    fresh mem_size data_width init_mem_values = Some s0 /\
    test_write_read_range_width mem_size data_width init_mem_values
      rand_word rand_addr regress_times s0 = Passed tt s'.
Proof.
  unfold test_write_read_range_width, test_write_range_width.
  set (counter := match regress_times with None => mem_size | Some n => n end).
  exists (dut_reset mem_size data_width (dut_init init_mem_values)).
  destruct (write_loop_passes regress_times (seq 0 (Z.to_nat counter)))
    with (d := @nil (Z * Z))
         (s := dut_reset mem_size data_width (dut_init init_mem_values))
    as (d & s' & Hloop & (Hidle & _ & _ & Hitems) & _).
  - intros Hn i Hi. apply elem_of_seq in Hi. subst counter. rewrite Hn in Hi. lia.
  - apply built_agrees.
  - rewrite Hloop. unfold test_read_range_width, read_expected.
    destruct (read_loop_passes d s' Hidle Hitems) as (s'' & Hread & _).
    exists s''. split; [apply fresh_built | exact Hread].
Qed.

(** X12.  The design is built, and [test_read_range_width] without
    [value_written] passes on its fresh simulation when the initial words fit
    [data_width] bits: every address below [mem_size] reads its initial
    word, or [0] past the end of the list, and the memory is left as it was
    built. *)
Theorem test_read_range_width_init_passes :
  Forall (fun w => 0 <= w < 2 ^ data_width) (dut_init init_mem_values) ->
  exists s0 s',
    fresh mem_size data_width init_mem_values = Some s0 /\
    test_read_range_width mem_size data_width init_mem_values None init_mem_values
      s0 = Passed tt s' /\
    Mem.storage (Master.slave_regs s')
    = Mem.storage_reset mem_size (dut_init init_mem_values).
Proof.
  intros Hfits. unfold test_read_range_width.
  destruct (read_loop_passes (read_expected mem_size None init_mem_values)
              (dut_reset mem_size data_width (dut_init init_mem_values)))
    as (s' & Hread & _ & Hst).
  - reflexivity.
  - intros k v Hkv. now apply init_items_agree.
  - exists (dut_reset mem_size data_width (dut_init init_mem_values)), s'.
    split; [apply fresh_built |]. split; [exact Hread | exact Hst].
Qed.

End TestFacts.

(** X13.  [test_write_read_range_max_error] depends only on what [Mem] receives
    of the drawn location: it passes when that is [mem_size] or more, and
    fails its assertion when the location, cut to the [mem_size] bits of the
    address signal of [Master] and to the [data_width] bits of that of [Mem],
    falls below [mem_size]. *)
Theorem test_max_error_outcome
    (mem_size data_width : Z) (init_mem_values : option (list Z))
    (rand_location : Z) (s : Master.Sim) :
  mem_size + 1 <= rand_location < mem_size ^ 2 ->
  (mem_size <= truncate (truncate rand_location mem_size) data_width ->
   exists s', Tests.test_write_read_range_max_error mem_size data_width
                init_mem_values rand_location s = Tests.Passed tt s') /\
  (truncate (truncate rand_location mem_size) data_width < mem_size ->
   exists s', Tests.test_write_read_range_max_error mem_size data_width
                init_mem_values rand_location s = Tests.TestAssertionError s').
Proof.
  intros Hloc. unfold Tests.test_write_read_range_max_error, Tests.randrange.
  destruct (Z.ltb_spec (mem_size + 1) (mem_size ^ 2)) as [_ | Hbad]; [| lia].
  split; intros Ha.
  - destruct (read_error mem_size data_width (Tests.dut_init init_mem_values)
                rand_location s Ha) as (value & s' & Hret & _).
    unfold dut_read. rewrite Hret. cbn [snd Z.eqb Pos.eqb]. now exists s'.
  - destruct (read_returns mem_size data_width (Tests.dut_init init_mem_values)
                rand_location s) as (s' & Hret & _ & Hs').
    unfold dut_read. rewrite Hret. cbn [snd].
    rewrite (dut_s2m_error mem_size data_width (Tests.dut_init init_mem_values)).
    assert (Hcur : m2s_addr (Master.cur s') = truncate rand_location mem_size)
      by (destruct Hs' as [-> | [_ ->]]; reflexivity).
    rewrite Hcur. destruct (Z.leb_spec mem_size
      (truncate (truncate rand_location mem_size) data_width)); [lia |].
    cbn. now exists s'.
Qed.

Lemma test_max_error_outcome_witness :
  10 + 1 <= 42 < 10 ^ 2 /\
  exists s', Tests.test_write_read_range_max_error 10 8 None 42
               (dut_reset 10 8 []) = Tests.Passed tt s'.
Proof.
  assert (H : 10 + 1 <= 42 < 10 ^ 2) by (cbn; lia).
  split; [exact H |].
  apply (test_max_error_outcome 10 8 None 42 (dut_reset 10 8 []) H).
  vm_compute. discriminate.
Defined.

(** X14.  When the design can be built, [test_write_range_width] without
    [regress_times] fails at its first write if the first drawn word needs
    more than the [mem_size] bits of the data signals of [Master]. *)
Theorem test_write_range_width_fails_on_wide_word
    (mem_size data_width : Z) (init_mem_values : option (list Z))
    (rand_word rand_addr : nat -> Z) :
  2 <= mem_size -> 1 <= data_width ->
  2 ^ mem_size <= rand_word O ->
  exists s0 s',
    Tests.fresh mem_size data_width init_mem_values = Some s0 /\
    Tests.test_write_range_width mem_size data_width init_mem_values
      rand_word rand_addr None s0 = Tests.TestAssertionError s'.
Proof.
  intros Hsize Hwidth Hwide.
  exists (dut_reset mem_size data_width (Tests.dut_init init_mem_values)).
  assert (Hbuilt : Tests.fresh mem_size data_width init_mem_values
                   = Some (dut_reset mem_size data_width
                             (Tests.dut_init init_mem_values))).
  { unfold Tests.fresh, dut_build, Mem.build, Signal_nbits, Signal_max.
    destruct (Z.ltb_spec 0 data_width); [| lia].
    destruct (Z.ltb_spec 0 (mem_size - 1)); [| lia].
    destruct (Z.ltb_spec 0 mem_size); [| lia].
    reflexivity. }
  unfold Tests.test_write_range_width.
  destruct (Z.to_nat mem_size) as [| n] eqn:Hn; [lia |].
  cbn [seq Tests.write_loop]. unfold Tests.randrange.
  destruct (Z.ltb_spec 0 (2 ^ data_width)) as [_ | Hbad];
    [| pose proof (Z.pow_pos_nonneg 2 data_width); lia].
  destruct (Z.ltb_spec 0 mem_size) as [_ | Hbad]; [| lia].
  destruct (write_in_range mem_size data_width (Tests.dut_init init_mem_values)
              (Z.of_nat 0) (rand_word O)
              (dut_reset mem_size data_width (Tests.dut_init init_mem_values)))
    as (s' & Hret & _).
  - intros Hempty. apply (f_equal length) in Hempty.
    unfold dut_reset, Master.sim_reset in Hempty.
    cbn [Master.slave_regs resp_reset Mem_responder Mem.reset Mem.storage] in Hempty.
    unfold Mem.storage_reset in Hempty.
    rewrite length_app, length_replicate in Hempty. cbn [length] in Hempty. lia.
  - reflexivity.
  - cbn [Z.of_nat]. unfold truncate at 1 2. rewrite !Z.land_0_l. lia.
  - cbv zeta in Hret. rewrite Hret. unfold Tests.pair_eqb. cbn [fst snd].
    pose proof (truncate_mod (truncate (truncate (rand_word O) mem_size) data_width)
                  mem_size ltac:(lia)) as Hm.
    pose proof (Z.mod_pos_bound
                  (truncate (truncate (rand_word O) mem_size) data_width)
                  (2 ^ mem_size) ltac:(apply Z.pow_pos_nonneg; lia)) as Hb.
    destruct (Z.eqb_spec
                (truncate (truncate (truncate (rand_word O) mem_size) data_width)
                          mem_size) (rand_word O)) as [Heq | Hne]; [lia |].
    cbn [andb]. exists s'. split; [exact Hbuilt | reflexivity].
Qed.

Lemma test_write_range_width_fails_on_wide_word_witness :
  2 <= 4 /\ 1 <= 8 /\ 2 ^ 4 <= 255 /\
  exists s0 s',
    Tests.fresh 4 8 None = Some s0 /\
    Tests.test_write_range_width 4 8 None (fun _ => 255) (fun _ => 0) None s0
    = Tests.TestAssertionError s'.
Proof.
  assert (H1 : 2 <= 4) by lia. assert (H2 : 1 <= 8) by lia.
  assert (H3 : 2 ^ 4 <= 255) by (cbn; lia).
  split; [exact H1 |]. split; [exact H2 |]. split; [exact H3 |].
  exact (test_write_range_width_fails_on_wide_word 4 8 None
           (fun _ => 255) (fun _ => 0) H1 H2 H3).
Defined.

(** ** What the responder keeps over a run *)





(** ** The poll loop with any responder *)

Section FirstAnswer.

Variable mem_size : Z.
Context {St : Type} {slave : Responder St}.

Lemma while_poll_answered (k : nat) :
  forall (fuel : nat) (timeout : Z) (s : @Master.Sim St),
    (k < fuel)%nat -> timeout + Z.of_nat k < 20 ->
    (forall j, (j < k)%nat ->
       Master.poll_done mem_size (Nat.iter j Master.tick s) = false) ->
    Master.poll_done mem_size (Nat.iter k Master.tick s) = true ->
    Master.while_poll mem_size fuel timeout s
    = Master.Return (timeout + Z.of_nat k) (Nat.iter k Master.tick s).
Proof.
  induction k as [| k IH]; intros fuel timeout s Hfuel Ht Hbefore Hat;
    (destruct fuel as [| fuel]; [lia |]); rewrite while_poll_unfold.
  - cbn in Hat. rewrite Hat. f_equal. cbn. lia.
  - pose proof (Hbefore O ltac:(lia)) as H0. cbn in H0. rewrite H0.
    destruct (Z.ltb_spec (timeout + 1) 20); [| lia].
    rewrite (IH fuel (timeout + 1) (Master.tick s)); try lia.
    + rewrite Nat.iter_succ_r. f_equal. lia.
    + intros j Hj. rewrite <- Nat.iter_succ_r. apply Hbefore. lia.
    + now rewrite <- Nat.iter_succ_r.
Qed.

(** X7.  With any responder, [write] and [read] return the data and the error
    flag of the first tick at which [s2m_ack] or [s2m_error] is set, if that
    is one of the first 20 polls: up to 19 unanswered polls are waited
    for. *)
Theorem routines_return_first_answer (adr dat : Z) (s : @Master.Sim St) (k : nat) :
  (k < 20)%nat ->
  (let s1 := Master.write_first_poll mem_size adr dat s in
   (forall j, (j < k)%nat ->
      Master.poll_done mem_size (Nat.iter j Master.tick s1) = false) ->
   Master.poll_done mem_size (Nat.iter k Master.tick s1) = true ->
   Master.write mem_size adr dat s
   = Master.Return (Master.s2m_data mem_size (Nat.iter k Master.tick s1),
                    Master.s2m_error mem_size (Nat.iter k Master.tick s1))
                   (Nat.iter k Master.tick s1)) /\
  (let s1 := Master.read_first_poll mem_size adr s in
   (forall j, (j < k)%nat ->
      Master.poll_done mem_size (Nat.iter j Master.tick s1) = false) ->
   Master.poll_done mem_size (Nat.iter k Master.tick s1) = true ->
   Master.read mem_size adr s
   = Master.Return (Master.s2m_data mem_size (Nat.iter k Master.tick s1),
                    Master.s2m_error mem_size (Nat.iter k Master.tick s1))
                   (Nat.iter k Master.tick s1)).
Proof.
  intros Hk. split; intros s1 Hbefore Hat.
  - rewrite write_unfold. fold s1.
    now rewrite (while_poll_answered k 20 0 s1 ltac:(lia) ltac:(lia) Hbefore Hat).
  - rewrite read_unfold. fold s1.
    now rewrite (while_poll_answered k 20 0 s1 ltac:(lia) ltac:(lia) Hbefore Hat).
Qed.

End FirstAnswer.

Lemma routines_return_first_answer_witness :
  (1 < 20)%nat /\
  exists s', dut_write 10 8 [] 3 42 (dut_reset 10 8 []) = Master.Return (42, 0) s'.
Proof.
  assert (Hk : (1 < 20)%nat) by lia.
  split; [exact Hk |].
  destruct (routines_return_first_answer 10
              (slave := Mem_responder 8 10 []) 3 42 (dut_reset 10 8 []) 1 Hk)
    as [Hwrite _].
  cbv zeta in Hwrite. eexists. unfold dut_write. rewrite Hwrite.
  - vm_compute. reflexivity.
  - intros j Hj. assert (j = O) as -> by lia. vm_compute. reflexivity.
  - vm_compute. reflexivity.
Defined.

(** ** The memory seen through [write] and [read] *)

(** X3.  From an idle bus, [write(adr, dat)] followed by [read(adr')] returns
    [dat] if [adr' = adr], and the word that [adr'] held before otherwise;
    both return the error component [0]. *)
Theorem write_then_read
    (mem_size data_width : Z) (init : list Z)
    (adr dat adr' word : Z) (s : Master.Sim) :
  bus_idle s = true ->
  0 <= adr < mem_size -> 0 <= adr' < mem_size -> mem_size <= 2 ^ data_width ->
  (Z.to_nat adr < length (Mem.storage (Master.slave_regs s)))%nat ->
  Mem.storage (Master.slave_regs s) !! Z.to_nat adr' = Some word ->
  0 <= dat < 2 ^ data_width -> dat < 2 ^ mem_size ->
  0 <= word < 2 ^ data_width -> word < 2 ^ mem_size ->
  exists s1 s2,
    dut_write mem_size data_width init adr dat s = Master.Return (dat, 0) s1 /\
    dut_read mem_size data_width init adr' s1
    = Master.Return (if adr' =? adr then dat else word, 0) s2 /\
    Mem.storage (Master.slave_regs s2)
    = <[Z.to_nat adr := dat]> (Mem.storage (Master.slave_regs s)).
Proof.
  intros Hidle Ha Ha' Hdepth Hlen Hlook Hd Hdm Hw Hwm.
  destruct (write_stores mem_size data_width init adr dat s Hidle Ha
              ltac:(lia) Hlen Hd Hdm) as (s1 & Hret1 & Hidle1 & Hst1 & _).
  assert (Hlook1 : Mem.storage (Master.slave_regs s1) !! Z.to_nat adr'
                   = Some (if adr' =? adr then dat else word)).
  { rewrite Hst1. destruct (Z.eqb_spec adr' adr) as [-> | Hne].
    - now apply list_lookup_insert_eq.
    - rewrite list_lookup_insert_ne by lia. exact Hlook. }
  destruct (read_loads mem_size data_width init adr'
              (if adr' =? adr then dat else word) s1 Hidle1 Ha' ltac:(lia) Hlook1)
    as (s2 & Hret2 & _ & Hst2 & _).
  - destruct (adr' =? adr); assumption.
  - destruct (adr' =? adr); assumption.
  - exists s1, s2. split; [exact Hret1 |]. split; [exact Hret2 |].
    now rewrite Hst2.
Qed.

Lemma write_then_read_witness :
  exists s1 s2,
    dut_write 10 8 [5; 6; 7] 1 42 (dut_reset 10 8 [5; 6; 7]) = Master.Return (42, 0) s1 /\
    dut_read 10 8 [5; 6; 7] 2 s1 = Master.Return (7, 0) s2.
Proof.
  destruct (write_then_read 10 8 [5; 6; 7] 1 42 2 7 (dut_reset 10 8 [5; 6; 7]))
    as (s1 & s2 & H1 & H2 & _);
    try reflexivity; try (cbn; lia).
  exists s1, s2. split; [exact H1 | exact H2].
Defined.

(** From an idle bus, [read(adr)] with [adr] below [mem_size] returns the
    word that the address selects as [Master] samples it: [Mem] receives
    [adr] cut to [data_width] bits, the array of words clamps it to the last
    index, and the word goes through the [data_width]-bit data signal of
    [Mem] and the [mem_size]-bit data signal of [Master]. *)
Lemma read_selected_word
    (mem_size data_width : Z) (init : list Z) (adr word : Z) (s : Master.Sim) :
  bus_idle s = true ->
  0 <= adr < mem_size -> 0 <= data_width ->
  Mem.storage (Master.slave_regs s)
    !! Z.to_nat (Z.min (adr mod 2 ^ data_width)
                       (Z.of_nat (length (Mem.storage (Master.slave_regs s))) - 1))
  = Some word ->
  exists s',
    dut_read mem_size data_width init adr s
    = Master.Return ((word mod 2 ^ data_width) mod 2 ^ mem_size, 0) s' /\
    bus_idle s' = true /\
    Mem.storage (Master.slave_regs s') = Mem.storage (Master.slave_regs s) /\
    (Master.now s < Master.now s' <= Master.now s + 2)%nat.
Proof.
  intros Hidle Ha Hdw Hw.
  destruct (address_in_range mem_size data_width adr Ha) as [Ha1 Ha2].
  destruct (read_in_range mem_size data_width init adr s Hidle)
    as (s' & Hret & Hrest).
  { rewrite Ha1. now apply Z.leb_gt. }
  exists s'. cbv zeta in Hret.
  rewrite Ha1, (truncate_mod adr data_width Hdw) in Hret.
  assert (Hcut : 0 <= adr mod 2 ^ data_width <= adr).
  { pose proof (Z.pow_pos_nonneg 2 data_width ltac:(lia) Hdw).
    split; [apply Z.mod_pos_bound; lia | apply Z.mod_le; lia]. }
  rewrite (truncate_small (adr mod 2 ^ data_width) (Mem.adr_nbits mem_size)) in Hret.
  2:{ pose proof (address_fits_port mem_size (adr mod 2 ^ data_width) ltac:(lia)). lia. }
  unfold array_eval, array_idx in Hret. rewrite Hw in Hret.
  cbn [default from_option id] in Hret.
  rewrite (truncate_mod word data_width Hdw), truncate_mod in Hret by lia.
  split; [exact Hret | exact Hrest].
Qed.

(** X4.  From an idle bus, two [read]s of the same address below [mem_size]
    in a row return the same pair: the word that the address selects, cut to
    [data_width] and then to [mem_size] bits, with the error component [0].
    The second is acknowledged at its first poll, one edge after the call,
    since the address is on the bus already; the memory is left as it is. *)
Theorem read_twice
    (mem_size data_width : Z) (init : list Z) (adr word : Z) (s : Master.Sim) :
  bus_idle s = true ->
  0 <= adr < mem_size -> 0 <= data_width ->
  let storage := Mem.storage (Master.slave_regs s) in
  let idx := Z.to_nat (Z.min (adr mod 2 ^ data_width)
                             (Z.of_nat (length storage) - 1)) in
  let value := (word mod 2 ^ data_width) mod 2 ^ mem_size in
  storage !! idx = Some word ->
  exists s1 s2,
    dut_read mem_size data_width init adr s = Master.Return (value, 0) s1 /\
    dut_read mem_size data_width init adr s1 = Master.Return (value, 0) s2 /\
    Master.now s2 = S (Master.now s1) /\
    Mem.storage (Master.slave_regs s2) = storage /\
    (adr < 2 ^ data_width -> (Z.to_nat adr < length storage)%nat ->
     idx = Z.to_nat adr) /\
    (0 <= word < 2 ^ data_width -> word < 2 ^ mem_size -> value = word).
Proof.
  intros Hidle Ha Hdw storage idx value Hlook. subst storage idx value.
  destruct (read_selected_word mem_size data_width init adr word s Hidle Ha Hdw Hlook)
    as (s1 & Hret1 & Hidle1 & Hst1 & _).
  rewrite <- Hst1 in Hlook.
  destruct (read_selected_word mem_size data_width init adr word s1 Hidle1 Ha Hdw Hlook)
    as (s2 & Hret2 & _ & Hst2 & _).
  exists s1, s2. split; [exact Hret1 |]. split; [exact Hret2 |].
  split; [| split; [congruence | split]].
  - (* the first poll of the second read is answered *)
    unfold dut_read in *.
    destruct (read_returns mem_size data_width init adr s) as (t1 & Ht1 & _ & Hs1).
    rewrite Ht1 in Hret1. injection Hret1 as _ _ <-.
    destruct (read_returns mem_size data_width init adr t1) as (t2 & Ht2 & _ & Hs2).
    rewrite Ht2 in Hret2. injection Hret2 as _ _ <-.
    set (r2 := Master.read_first_poll mem_size adr t1) in *.
    assert (Hdone : Master.poll_done mem_size
                      (slave := Mem_responder data_width mem_size init) r2 = true).
    { rewrite (dut_poll_done mem_size data_width init). subst r2.
      cbn [Master.read_first_poll Master.slave_regs Master.cur m2s_we m2s_addr
           Master.nbits resp_sync Mem_responder].
      rewrite Mem_sync_addr_new. cbn [Mem_connect m2s_addr Mem.nbits].
      assert (Hcur : m2s_addr (Master.cur t1) = truncate adr mem_size)
        by (destruct Hs1 as [-> | [_ ->]]; reflexivity).
      rewrite Hcur, truncate_idem, Z.eqb_refl.
      apply bus_idle_spec in Hidle1 as [_ Hpend]. rewrite Hpend. reflexivity. }
    destruct Hs2 as [-> | [Hf _]]; [reflexivity | congruence].
  - intros Had Hlen. rewrite Z.mod_small by lia. lia.
  - intros Hw Hwm. rewrite (Z.mod_small word (2 ^ data_width)) by lia.
    apply Z.mod_small. lia.
Qed.

Lemma read_twice_witness :
  (exists s1 s2,
     dut_read 10 8 [5; 6; 7] 2 (dut_reset 10 8 [5; 6; 7]) = Master.Return (7, 0) s1 /\
     dut_read 10 8 [5; 6; 7] 2 s1 = Master.Return (7, 0) s2 /\
     Master.now s2 = S (Master.now s1)) /\
  (exists s1 s2,
     dut_read 10 2 [5; 6; 7] 5 (dut_reset 10 2 [5; 6; 7]) = Master.Return (2, 0) s1 /\
     dut_read 10 2 [5; 6; 7] 5 s1 = Master.Return (2, 0) s2 /\
     Master.now s2 = S (Master.now s1)).
Proof.
  split.
  - destruct (read_twice 10 8 [5; 6; 7] 2 7 (dut_reset 10 8 [5; 6; 7]))
      as (s1 & s2 & H1 & H2 & H3 & _);
      [reflexivity | lia | lia | reflexivity |].
    exists s1, s2. auto.
  - destruct (read_twice 10 2 [5; 6; 7] 5 6 (dut_reset 10 2 [5; 6; 7]))
      as (s1 & s2 & H1 & H2 & H3 & _);
      [reflexivity | lia | lia | reflexivity |].
    exists s1, s2. auto.
Defined.

(** ** The memory as a list of words *)

(** X1.  From an idle bus, [write(adr, dat)] with [adr] below [mem_size] and
    [dat] a word that fits [data_width] and [mem_size] bits returns [(dat, 0)]
    two edges after the call, replaces the word of index [adr] and no other,
    and leaves the bus idle. *)
Theorem write_replaces_one_word
    (mem_size data_width : Z) (init : list Z) (adr dat : Z) (s : Master.Sim) :
  bus_idle s = true ->
  0 <= adr < mem_size -> adr < 2 ^ data_width ->
  (Z.to_nat adr < length (Mem.storage (Master.slave_regs s)))%nat ->
  0 <= dat < 2 ^ data_width -> dat < 2 ^ mem_size ->
  exists s',
    dut_write mem_size data_width init adr dat s = Master.Return (dat, 0) s' /\
    bus_idle s' = true /\
    Mem.storage (Master.slave_regs s')
    = <[Z.to_nat adr := dat]> (Mem.storage (Master.slave_regs s)) /\
    Master.now s' = (Master.now s + 2)%nat.
Proof.
  intros Hidle Ha Had Hlen Hd Hdm.
  assert (Hne : Mem.storage (Master.slave_regs s) <> []).
  { intros He. rewrite He in Hlen. cbn in Hlen. lia. }
  destruct (address_in_range mem_size data_width adr Ha) as [Ha1 Ha2].
  destruct (key_in_range mem_size data_width _ adr Ha Had Hlen) as [_ Hidx].
  destruct (write_in_range mem_size data_width init adr dat s Hne Hidle)
    as (s' & Hret & Hi & Hst & Hnow).
  { rewrite Ha1. now apply Z.leb_gt. }
  exists s'. cbv zeta in Hret, Hst.
  rewrite (truncate_small dat mem_size), (truncate_small dat data_width),
    (truncate_small dat mem_size) in Hret by lia.
  rewrite (truncate_small dat mem_size), (truncate_small dat data_width) in Hst by lia.
  unfold array_assign in Hst. rewrite Hidx in Hst. auto.
Qed.

(** X2.  From an idle bus, [read(adr)] with [adr] below [mem_size] returns,
    one or two edges after the call and with the error component [0], the
    word of index [min (adr mod 2 ^ data_width) (length storage - 1)] reduced
    modulo [2 ^ data_width] and then modulo [2 ^ mem_size]; it leaves the
    memory as it is and the bus idle.  The index is [adr] when [adr] fits
    [data_width] bits and is below the number of words, and the value is the
    word when the word fits both widths. *)
Theorem read_returns_the_word
    (mem_size data_width : Z) (init : list Z) (adr word : Z) (s : Master.Sim) :
  bus_idle s = true ->
  0 <= adr < mem_size -> 0 <= data_width ->
  let storage := Mem.storage (Master.slave_regs s) in
  let idx := Z.to_nat (Z.min (adr mod 2 ^ data_width)
                             (Z.of_nat (length storage) - 1)) in
  let value := (word mod 2 ^ data_width) mod 2 ^ mem_size in
  storage !! idx = Some word ->
  exists s',
    dut_read mem_size data_width init adr s = Master.Return (value, 0) s' /\
    bus_idle s' = true /\
    Mem.storage (Master.slave_regs s') = storage /\
    (Master.now s < Master.now s' <= Master.now s + 2)%nat /\
    (adr < 2 ^ data_width -> (Z.to_nat adr < length storage)%nat ->
     idx = Z.to_nat adr) /\
    (0 <= word < 2 ^ data_width -> word < 2 ^ mem_size -> value = word).
Proof.
  intros Hidle Ha Hdw storage idx value Hlook. subst storage idx value.
  destruct (read_selected_word mem_size data_width init adr word s Hidle Ha Hdw Hlook)
    as (s' & Hret & Hidle' & Hst & Hnow).
  exists s'. repeat (split; [assumption |]). split.
  - intros Had Hlen. rewrite Z.mod_small by lia. lia.
  - intros Hw Hwm. rewrite (Z.mod_small word (2 ^ data_width)) by lia.
    apply Z.mod_small. lia.
Qed.

Lemma write_replaces_one_word_witness :
  exists s',
    dut_write 10 8 [] 3 42 (dut_reset 10 8 []) = Master.Return (42, 0) s' /\
    bus_idle s' = true /\
    Mem.storage (Master.slave_regs s')
    = <[3%nat := 42]> (Mem.storage (Master.slave_regs (dut_reset 10 8 []))) /\
    Master.now s' = 2%nat.
Proof.
  apply (write_replaces_one_word 10 8 [] 3 42 (dut_reset 10 8 []));
    try reflexivity; try (cbn; lia); vm_compute; lia.
Defined.

Lemma read_returns_the_word_witness :
  (exists s',
     dut_read 10 8 [5; 6; 7] 2 (dut_reset 10 8 [5; 6; 7]) = Master.Return (7, 0) s' /\
     bus_idle s' = true /\
     Mem.storage (Master.slave_regs s')
     = Mem.storage (Master.slave_regs (dut_reset 10 8 [5; 6; 7])) /\
     (0 < Master.now s' <= 2)%nat) /\
  (exists s',
     dut_read 4 8 [255] 0 (dut_reset 4 8 [255]) = Master.Return (15, 0) s') /\
  (exists s',
     dut_read 10 2 [1; 2; 3] 5 (dut_reset 10 2 [1; 2; 3]) = Master.Return (2, 0) s').
Proof.
  split; [| split].
  - destruct (read_returns_the_word 10 8 [5; 6; 7] 2 7 (dut_reset 10 8 [5; 6; 7]))
      as (s' & H1 & H2 & H3 & H4 & _);
      [reflexivity | lia | lia | reflexivity |].
    exists s'. auto.
  - destruct (read_returns_the_word 4 8 [255] 0 255 (dut_reset 4 8 [255]))
      as (s' & H1 & _);
      [reflexivity | lia | lia | reflexivity |].
    exists s'. exact H1.
  - destruct (read_returns_the_word 10 2 [1; 2; 3] 5 2 (dut_reset 10 2 [1; 2; 3]))
      as (s' & H1 & _);
      [reflexivity | lia | lia | reflexivity |].
    exists s'. exact H1.
Defined.

Lemma read_out_of_range_witness :
  exists value s',
    dut_read 10 8 [] 15 (dut_reset 10 8 []) = Master.Return (value, 1) s' /\
    bus_idle s' = true /\
    Mem.storage (Master.slave_regs s')
    = Mem.storage (Master.slave_regs (dut_reset 10 8 [])) /\
    Master.now s' = 1%nat.
Proof.
  apply (read_out_of_range 10 8 [] 15 (dut_reset 10 8 []));
    [reflexivity | vm_compute; discriminate].
Defined.

Lemma write_after_failed_write_witness :
  exists value s1 s2,
    dut_write 10 8 [] 15 77 (dut_reset 10 8 []) = Master.Return (value, 1) s1 /\
    dut_write 10 8 [] 3 42 s1 = Master.Return (77, 0) s2 /\
    Master.now s2 = 2%nat /\
    bus_idle s2 = false.
Proof.
  apply (write_after_failed_write 10 8 [] 15 77 3 42 (dut_reset 10 8 []));
    [discriminate | vm_compute; discriminate | vm_compute; reflexivity].
Defined.

Lemma propagate_settles_witness :
  (5 < 6)%nat /\
  Settle.propagate 10 8 (Mem.reset 10 []) (mkM2S 1 42 3) 6
    (Settle.mkComb 0 0 0 0 0 0 0 0 0 0 0 0 0 0)
  = Some (Settle.settled 10 8 (Mem.reset 10 []) (mkM2S 1 42 3)).
Proof.
  assert (H : (5 < 6)%nat) by lia.
  split; [exact H |].
  exact (propagate_settles 10 8 (Mem.reset 10 []) (mkM2S 1 42 3) 6
           (Settle.mkComb 0 0 0 0 0 0 0 0 0 0 0 0 0 0) H).
Defined.

(** The configurations that can be built: [mem_size] at least [2] and
    [data_width] at least [1].  For the others a declaration raises, and no
    simulation starts. *)
Lemma dut_build_starts (mem_size data_width : Z) (init : list Z) :
  2 <= mem_size -> 1 <= data_width ->
  dut_build mem_size data_width init = Some (dut_reset mem_size data_width init).
Proof.
  intros Hs Hw. unfold dut_build, Mem.build, Signal_nbits, Signal_max.
  destruct (Z.ltb_spec 0 data_width); [| lia].
  destruct (Z.ltb_spec 0 (mem_size - 1)); [| lia].
  destruct (Z.ltb_spec 0 mem_size); [| lia].
  reflexivity.
Qed.

Lemma dut_build_raises (mem_size data_width : Z) (init : list Z) :
  mem_size <= 1 \/ data_width <= 0 ->
  dut_build mem_size data_width init = None.
Proof.
  intros H. unfold dut_build, Mem.build, Signal_nbits, Signal_max.
  destruct (Z.ltb_spec 0 data_width); [| reflexivity].
  destruct (Z.ltb_spec 0 (mem_size - 1)); [| reflexivity].
  lia.
Qed.

Lemma default_configuration_fits :
  2 <= 10 /\ 1 <= 8 <= 10 /\ 10 <= 2 ^ 8 /\
  (forall i : nat, 0 <= 200 + Z.of_nat i mod 50 < 2 ^ 8) /\
  (forall i : nat, 0 <= Z.of_nat i mod 10 < 10).
Proof.
  change (2 ^ 8) with 256. repeat split; try lia.
  - apply Z.add_nonneg_nonneg; [lia |]. apply Z.mod_pos_bound. lia.
  - pose proof (Z.mod_pos_bound (Z.of_nat i) 50 ltac:(lia)). lia.
  - apply Z.mod_pos_bound. lia.
  - apply Z.mod_pos_bound. lia.
Qed.

Lemma test_write_range_width_passes_witness :
  exists s0 d s',
    Tests.fresh 10 8 None = Some s0 /\
    Tests.test_write_range_width 10 8 None
      (fun i => 200 + Z.of_nat i mod 50) (fun i => Z.of_nat i mod 10) (Some 20)
      s0 = Tests.Passed d s'.
Proof.
  destruct default_configuration_fits as (H1 & H2 & H3 & H4 & H5).
  destruct (test_write_range_width_passes 10 8 None
              (fun i => 200 + Z.of_nat i mod 50) (fun i => Z.of_nat i mod 10)
              H1 H2 H3 H4 H5 (Some 20)) as (s0 & d & s' & Hbuilt & Hpass & _).
  exists s0, d, s'. split; [exact Hbuilt | exact Hpass].
Defined.

Lemma test_write_read_range_width_passes_witness :
  exists s0 s',
    Tests.fresh 10 8 None = Some s0 /\
    Tests.test_write_read_range_width 10 8 None
      (fun i => 200 + Z.of_nat i mod 50) (fun i => Z.of_nat i mod 10) None
      s0 = Tests.Passed tt s'.
Proof.
  destruct default_configuration_fits as (H1 & H2 & H3 & H4 & H5).
  exact (test_write_read_range_width_passes 10 8 None
           (fun i => 200 + Z.of_nat i mod 50) (fun i => Z.of_nat i mod 10)
           H1 H2 H3 H4 H5 None).
Defined.

Lemma test_read_range_width_init_passes_witness :
  exists s0 s',
    Tests.fresh 10 8 (Some [5; 6; 7]) = Some s0 /\
    Tests.test_read_range_width 10 8 (Some [5; 6; 7]) None (Some [5; 6; 7])
      s0 = Tests.Passed tt s' /\
    Mem.storage (Master.slave_regs s') = [5; 6; 7; 0; 0; 0; 0; 0; 0; 0].
Proof.
  destruct default_configuration_fits as (H1 & H2 & H3 & _).
  apply (test_read_range_width_init_passes 10 8 (Some [5; 6; 7]) H1 H2 H3).
  repeat constructor; cbn; lia.
Defined.

(** ** The read path of the memory port *)



